(** * convert2avif: the batch pipeline of [converter.py]

    A shallow embedding of the non-GUI part of [converter.py]: discovery
    ([collect_images]), colour-mode normalisation ([prepare_mode]), the
    encoder call ([save_avif]), the per-item conversion ([convert_one]),
    the prefix normalisation of [start_conversion] and the batch loop
    ([worker]).

    Conventions of the model.
    - A Python [str] is a [string]; a character is a code point below 256,
      so [str.lower] and [str.strip] are given on that range.
    - A [pathlib] path is the list of its [parts] (POSIX flavour); a root,
      when there is one, is the first part (["/"] or ["//"]).
    - The filesystem is a finite map from paths to the kind of entry found
      there, a link counting as what it leads to. The pipeline is given
      twice. First on a tree without links where [os.stat] does not fail:
      [Path.exists], [is_file] and [is_dir] are then total queries on the
      map, and [glob] and [rglob] list its keys. Then, in the module [Os],
      with queries that answer or raise an [OSError] as [pathlib] does up
      to Python 3.13, and with the listing of a folder as a parameter. A
      run of the second that returns is a run of the first.
    - Pillow is the codec collaborator: [Image.open]/[load] and [Image.save]
      are parameters of the development; each either returns or raises an
      [Exception] whose text is a string.
    - The calls made on the codec and on the Tk widgets are recorded, in
      program order, in a log of events. *)

From stdpp Require Import base decidable option list sorting gmap strings pretty.
From Stdlib Require Import Ascii String ZArith.

Local Open Scope string_scope.
Local Open Scope Z_scope.
Local Open Scope list_scope.

(** ** Characters and strings *)

Module Char.

(** [str.lower] on one character (code points below 256). *)
Definition lower (c : ascii) : ascii :=
  let n := N_of_ascii c in
  if ((65 <=? n) && (n <=? 90)
      || (192 <=? n) && (n <=? 222) && negb (n =? 215))%N
  then ascii_of_N (n + 32) else c.

(** [str.isspace] on one character (code points below 256). *)
Definition isspace (c : ascii) : bool :=
  let n := N_of_ascii c in
  ((9 <=? n) && (n <=? 13) || (28 <=? n) && (n <=? 32)
   || (n =? 133) || (n =? 160))%N.

End Char.

Module Str.

Fixpoint lower (s : string) : string :=
  match s with
  | EmptyString => EmptyString
  | String c s' => String (Char.lower c) (lower s')
  end.

Fixpoint lstrip (s : string) : string :=
  match s with
  | EmptyString => EmptyString
  | String c s' => if Char.isspace c then lstrip s' else s
  end.

(** [rstrip] keeps a character when it is not a space or when something
    is kept after it. *)
Fixpoint rstrip (s : string) : string :=
  match s with
  | EmptyString => EmptyString
  | String c s' =>
      match rstrip s' with
      | EmptyString => if Char.isspace c then EmptyString else String c EmptyString
      | r => String c r
      end
  end.

Definition strip (s : string) : string := rstrip (lstrip s).

(** [s.rfind(".")]: the index of the last dot. *)
Fixpoint rfind_dot (s : string) : option nat :=
  match s with
  | EmptyString => None
  | String c s' =>
      match rfind_dot s' with
      | Some i => Some (S i)
      | None => if decide (c = "."%char) then Some O else None
      end
  end.

(** [s[:i]] and [s[i:]]. *)
Fixpoint take (i : nat) (s : string) : string :=
  match i, s with
  | S i', String c s' => String c (take i' s')
  | _, _ => EmptyString
  end.

Fixpoint drop (i : nat) (s : string) : string :=
  match i, s with
  | S i', String _ s' => drop i' s'
  | _, _ => s
  end.

(** [s.split("/")]. *)
Fixpoint split_slash (s : string) : list string :=
  match s with
  | EmptyString => [EmptyString]
  | String c s' =>
      if decide (c = "/"%char) then EmptyString :: split_slash s'
      else match split_slash s' with
           | [] => [String c EmptyString]
           | w :: ws => String c w :: ws
           end
  end.

(** The number of slashes a string starts with. *)
Fixpoint leading_slashes (s : string) : nat :=
  match s with
  | String c s' => if decide (c = "/"%char) then S (leading_slashes s') else O
  | EmptyString => O
  end.

(** Python's truth value of a string. *)
Definition truthy (s : string) : bool :=
  match s with EmptyString => false | _ => true end.

End Str.

(** Two properties of strings, for the statements below: having no slash,
    and being made of spaces only (the empty string is). *)
Fixpoint slash_free (s : string) : bool :=
  match s with
  | EmptyString => true
  | String c s' => negb (bool_decide (c = "/"%char)) && slash_free s'
  end.

Fixpoint all_space (s : string) : bool :=
  match s with
  | EmptyString => true
  | String c s' => Char.isspace c && all_space s'
  end.

(** ** Paths *)

Abbreviation Path := (list string) (only parsing).

Definition is_root (c : string) : bool :=
  bool_decide (c = "/") || bool_decide (c = "//").

(** [PurePosixPath(s)]: the parts of the text [s]. Empty and ["."]
    components are dropped; one leading slash, or three and more, is the
    root ["/"], exactly two is the root ["//"]. *)
Definition parse_path (s : string) : Path :=
  let comps :=
    filter (λ c, c ≠ "" ∧ c ≠ ".") (Str.split_slash s) in
  match Str.leading_slashes s with
  | O => comps
  | 2%nat => "//" :: comps
  | _ => "/" :: comps
  end.

Definition has_root (p : Path) : bool :=
  match p with c :: _ => is_root c | [] => false end.

(** [d / s] for a path [d] and a string [s]. *)
Definition joinpath (d : Path) (s : string) : Path :=
  let q := parse_path s in
  if has_root q then q else d ++ q.

(** [p.name]: the last part, unless it is the root. *)
Definition name (p : Path) : string :=
  match last p with
  | Some c => if is_root c then "" else c
  | None => ""
  end.

(** [p.suffix] and [p.stem]: the name is cut at its last dot when that dot
    is neither the first nor the last character. *)
Definition suffix (p : Path) : string :=
  let nm := name p in
  match Str.rfind_dot nm with
  | Some i =>
      if bool_decide (0 < i < String.length nm - 1)%nat then Str.drop i nm else ""
  | None => ""
  end.

Definition stem (p : Path) : string :=
  let nm := name p in
  match Str.rfind_dot nm with
  | Some i =>
      if bool_decide (0 < i < String.length nm - 1)%nat then Str.take i nm else nm
  | None => nm
  end.

(** [str(p)]. *)
Definition path_str (p : Path) : string :=
  match p with
  | [] => "."
  | c :: tl =>
      if is_root c then c +:+ String.concat "/" tl
      else String.concat "/" p
  end.

(** [p < q] on paths: Python compares the sequences of parts, part by part,
    each part as a string; a proper prefix comes first. *)
Fixpoint path_ltb (p q : Path) : bool :=
  match p, q with
  | [], [] => false
  | [], _ :: _ => true
  | _ :: _, [] => false
  | a :: p', b :: q' =>
      if decide (a = b) then path_ltb p' q' else String.ltb a b
  end.

Definition path_lt (p q : Path) : Prop := path_ltb p q = true.

(** The order [sorted] realises: [p] may stay before [q] unless [q < p]. *)
Definition path_le (p q : Path) : Prop := path_ltb q p = false.

Global Instance path_lt_dec : RelDecision path_lt.
Proof. intros p q. unfold path_lt. apply _. Defined.

Global Instance path_le_dec : RelDecision path_le.
Proof. intros p q. unfold path_le. apply _. Defined.

(** [sorted(l)] for a list of paths: a stable sort driven by [<]. *)
Definition sorted (l : list Path) : list Path := merge_sort path_le l.

(** ** The filesystem *)

Inductive kind := KFile | KDir | KOther.

Global Instance kind_eq_dec : EqDecision kind.
Proof. solve_decision. Defined.

Abbreviation FS := (gmap (list string) kind) (only parsing).

(** [p.exists()], [p.is_file()] and [p.is_dir()] where [os.stat] does not
    fail; the module [Os] below has the queries that raise. *)
Definition exists_ (fs : FS) (p : Path) : bool := bool_decide (is_Some (fs !! p)).
Definition is_file (fs : FS) (p : Path) : bool := bool_decide (fs !! p = Some KFile).
Definition is_dir (fs : FS) (p : Path) : bool := bool_decide (fs !! p = Some KDir).

(** [p] relative to [src]: the parts of [p] after those of [src]. *)
Fixpoint relative_to (src p : Path) : option (list string) :=
  match src, p with
  | [], _ => Some p
  | a :: src', b :: p' => if decide (a = b) then relative_to src' p' else None
  | _ :: _, [] => None
  end.

(** [p] is an entry directly in [src], or below it at any depth. *)
Definition is_child (src p : Path) : bool :=
  match relative_to src p with
  | Some [c] => negb (is_root c)
  | _ => false
  end.

Definition is_below (src p : Path) : bool :=
  match relative_to src p with
  | Some (c :: cs) => forallb (λ c, negb (is_root c)) (c :: cs)
  | _ => false
  end.

(** [src.glob("*")] and [src.rglob("*")] on a tree without links, in the
    order the filesystem lists its entries. *)
Definition glob (fs : FS) (src : Path) : list Path :=
  filter (λ p, is_child src p) (map_to_list fs).*1.

Definition rglob (fs : FS) (src : Path) : list Path :=
  filter (λ p, is_below src p) (map_to_list fs).*1.

(** ** Discovery *)

Definition COMMON_EXTS : list string :=
  [".jpg"; ".jpeg"; ".png"; ".webp"; ".bmp"; ".tif"; ".tiff"; ".gif"].

(** [p.suffix.lower() in COMMON_EXTS]. *)
Definition recognized (p : Path) : bool :=
  bool_decide (Str.lower (suffix p) ∈ COMMON_EXTS).

Definition collect_images (fs : FS) (src : Path) (recursive : bool) : list Path :=
  if is_file fs src then
    (if recognized src then [src] else [])
  else if negb (is_dir fs src) then []
  else
    let it := if recursive then rglob fs src else glob fs src in
    sorted (filter (λ p, is_file fs p && recognized p) it).

(** ** Images and the codec *)

(** A decoded image: its mode, its [info] dictionary (the values read
    here, ["exif"] and ["icc_profile"], are byte strings) and the picture
    it holds. *)
Record Image := mkImage {
  mode : string;
  info : gmap string string;
  pixels : string
}.

(** [im.convert(m)]: a copy in mode [m]; Pillow copies [info] to the new
    image. The field [pixels] names the picture, whatever its mode. *)
Definition convert (im : Image) (m : string) : Image :=
  {| mode := m; info := info im; pixels := pixels im |}.

Definition prepare_mode (im : Image) : Image :=
  if bool_decide (mode im ∈ ["RGBA"; "LA"]) then convert im "RGBA"
  else convert im "RGB".

(** The modes of Pillow that have an alpha band: [RGBA], [LA] and [PA],
    and [RGBa] and [La] where the alpha is premultiplied. *)
Definition alpha_modes : list string := ["RGBA"; "LA"; "PA"; "RGBa"; "La"].

Definition has_alpha (im : Image) : bool :=
  bool_decide (mode im ∈ alpha_modes).

(** The values of the keyword arguments given to [im.save]. *)
Inductive pvalue :=
| PStr (s : string)
| PInt (z : Z)
| PBool (b : bool)
| PBytes (b : string).

Global Instance pvalue_eq_dec : EqDecision pvalue.
Proof. solve_decision. Defined.

(** What a call of the codec gives: a value, or a raised [Exception] with
    its text [str(e)]. *)
Inductive outcome (A : Type) :=
| Ok (a : A)
| Raise (e : string).
Global Arguments Ok {A} a.
Global Arguments Raise {A} e.

(** The calls the pipeline makes on its collaborators. *)
Inductive event :=
| EvSave (im : Image) (out : Path) (params : gmap string pvalue)
    (** [im.save(out, **params)] *)
| EvReturn (item : Path) (msg : option string)
    (** [convert_one] returned [msg] for [item] *)
| EvProgress (v : Z)
    (** [prog.after(0, lambda v=i: prog.config(value=v))] *)
| EvStatus (text : string)
    (** [status_var.set(text)] *)
| EvButton (state : string).
    (** [btn_convert.after(0, lambda: btn_convert.config(state=state))] *)

Record World := mkWorld {
  fs : FS;
  log : list event
}.

Definition emit (ev : event) (w : World) : World :=
  {| fs := fs w; log := log w ++ [ev] |}.

(** Python's truth value of an [Optional[str]]. *)
Definition truthy (o : option string) : bool :=
  match o with Some s => Str.truthy s | None => false end.

(** The stem of the target: [f"{prefix}_{src.stem}" if prefix else src.stem]. *)
Definition target_stem (prefix : option string) (src : Path) : string :=
  match prefix with
  | Some p => if Str.truthy p then p +:+ "_" +:+ stem src else stem src
  | None => stem src
  end.

(** The name of the target: [f"{stem}.avif"]. *)
Definition target_name (prefix : option string) (src : Path) : string :=
  target_stem prefix src +:+ ".avif".

(** The [n]-th candidate of the probe: [dst_dir / f"{stem}_{n}.avif"]. *)
Definition candidate (dst_dir : Path) (stm : string) (n : Z) : Path :=
  joinpath dst_dir (stm +:+ "_" +:+ pretty n +:+ ".avif").

(** The [while True] probe from [n]; [fuel] bounds the iterations, and
    [None] is a probe that has not ended within them. *)
Fixpoint probe (fuel : nat) (fs : FS) (dst_dir : Path) (stm : string)
    (n : Z) : option Path :=
  match fuel with
  | O => None
  | S fuel' =>
      let cand := candidate dst_dir stm n in
      if negb (exists_ fs cand) then Some cand
      else probe fuel' fs dst_dir stm (n + 1)
  end.

(** The path [convert_one] hands to [save_avif]. *)
Definition resolve_out (fuel : nat) (fs : FS) (dst_dir : Path)
    (overwrite : bool) (prefix : option string) (src : Path) : option Path :=
  let stm := target_stem prefix src in
  let out := joinpath dst_dir (stm +:+ ".avif") in
  if exists_ fs out && negb overwrite then probe fuel fs dst_dir stm 2
  else Some out.

(** [prefix = self.prefix_var.get().strip() or None] in [start_conversion]. *)
Definition normalize_prefix (raw : string) : option string :=
  let s := Str.strip raw in
  if Str.truthy s then Some s else None.

(** The options of a run, as [worker] finds them in its closure. *)
Record Options := mkOptions {
  dst : Path;
  overwrite : bool;
  quality : Z;
  speed : Z;
  lossless : bool;
  keep_exif : bool;
  prefix : option string
}.

(** The text of the last status line. *)
Definition done_text (succeeded failed : Z) (dst : Path) : string :=
  "Done. " +:+ pretty succeeded +:+ " succeeded, " +:+ pretty failed
    +:+ " failed. Output: " +:+ path_str dst.

(** The dictionary [params] that [save_avif] builds for [im.save]. *)
Definition avif_params (im : Image) (quality speed : Z)
    (lossless keep_exif : bool) : gmap string pvalue :=
  let params : gmap string pvalue :=
    <["lossless" := PBool lossless]>
      (<["speed" := PInt speed]>
         (<["quality" := PInt quality]> {["format" := PStr "AVIF"]})) in
  let params :=
    if keep_exif && bool_decide (is_Some (info im !! "exif"))
    then <["exif" := PBytes (info im !!! "exif")]> params
    else params in
  let params :=
    if bool_decide (is_Some (info im !! "icc_profile"))
    then <["icc_profile" := PBytes (info im !!! "icc_profile")]> params
    else params in
  params.

Section Pipeline.

(** [Image.open(src)] followed by [im.load()], on the current files. *)
Variable pil_open : FS → Path → outcome Image.

(** [im.save(out, **params)] on the current files: whether it raises,
    and the files afterwards. *)
Variable pil_save :
  FS → Image → Path → gmap string pvalue → outcome unit * FS.

Definition im_save (w : World) (im : Image) (out : Path)
    (params : gmap string pvalue) : outcome unit * World :=
  let '(r, fs') := pil_save (fs w) im out params in
  (r, {| fs := fs'; log := log w ++ [EvSave im out params] |}).

Definition save_avif (w : World) (im : Image) (out_path : Path)
    (quality speed : Z) (lossless keep_exif : bool) : outcome unit * World :=
  im_save w im out_path (avif_params im quality speed lossless keep_exif).

Definition convert_one (fuel : nat) (w : World) (src dst_dir : Path)
    (overwrite : bool) (quality speed : Z) (lossless keep_exif : bool)
    (prefix : option string) : option (option string * World) :=
  match pil_open (fs w) src with
  | Raise e => Some (Some ("Skip " +:+ name src +:+ ": " +:+ e), w)
  | Ok im =>
      let im2 := prepare_mode im in
      match resolve_out fuel (fs w) dst_dir overwrite prefix src with
      | None => None
      | Some out =>
          match save_avif w im2 out quality speed lossless keep_exif with
          | (Ok _, w') => Some (None, w')
          | (Raise e, w') =>
              Some (Some ("Failed " +:+ name src +:+ ": " +:+ e), w')
          end
      end
  end.

(** The [for i, item in enumerate(items, start=1)] loop of [worker]:
    [rest] is what is left of [items], [i] the index of its head, [n] is
    [len(items)]. It gives the final value of [errors]. *)
Fixpoint worker_loop (fuel : nat) (o : Options) (n : Z) (rest : list Path)
    (i : Z) (errors : Z) (w : World) : option (Z * World) :=
  match rest with
  | [] => Some (errors, w)
  | item :: rest' =>
      match convert_one fuel w item (dst o) (overwrite o) (quality o)
              (speed o) (lossless o) (keep_exif o) (prefix o) with
      | None => None
      | Some (msg, w) =>
          let w := emit (EvReturn item msg) w in
          let w := emit (EvProgress i) w in
          let errors := if truthy msg then errors + 1 else errors in
          let w := emit (EvStatus (pretty i +:+ "/" +:+ pretty n)) w in
          worker_loop fuel o n rest' (i + 1) errors w
      end
  end.

Definition worker (fuel : nat) (o : Options) (items : list Path)
    (w : World) : option World :=
  let n := Z.of_nat (List.length items) in
  match worker_loop fuel o n items 1 0 w with
  | None => None
  | Some (errors, w) =>
      let w := emit (EvStatus (done_text (n - errors) errors (dst o))) w in
      Some (emit (EvButton "normal") w)
  end.

End Pipeline.


(** ** Observations

    What the statements below read off a run. *)

(** What [convert_one] gives and does once the decoder has given [im] and
    the output path is [out], in terms of what the encoder [pil_save] does. *)
Definition encoded
    (pil_save : FS → Image → Path → gmap string pvalue → outcome unit * FS)
    (w : World) (src : Path) (im : Image) (out : Path)
    (q s : Z) (l k : bool) : option string * World :=
  let ps := avif_params (prepare_mode im) q s l k in
  let r := pil_save (fs w) (prepare_mode im) out ps in
  (match r.1 with
   | Ok _ => None
   | Raise e => Some ("Failed " +:+ name src +:+ ": " +:+ e)
   end,
   {| fs := r.2; log := log w ++ [EvSave (prepare_mode im) out ps] |}).

(** How one call of [convert_one] on [item] went, from the files [fs w]:
    the decoder raised and the message says so, leaving everything as it
    was, or the encoder was called on some path and the message says
    whether it raised. *)
Definition caught
    (pil_open : FS → Path → outcome Image)
    (pil_save : FS → Image → Path → gmap string pvalue → outcome unit * FS)
    (w : World) (item : Path) (o : Options)
    (msg : option string) (w' : World) : Prop :=
  match pil_open (fs w) item with
  | Raise e => msg = Some ("Skip " +:+ name item +:+ ": " +:+ e) ∧ w' = w
  | Ok im =>
      ∃ out,
        (msg, w') = encoded pil_save w item im out (quality o) (speed o)
                      (lossless o) (keep_exif o)
  end.

Definition is_save (ev : event) : bool :=
  match ev with EvSave _ _ _ => true | _ => false end.

(** The events other than the calls of the encoder. *)
Definition ui_events (l : list event) : list event :=
  filter (λ ev, is_save ev = false) l.

Definition returns (l : list event) : list (Path * option string) :=
  omap (λ ev, match ev with EvReturn i m => Some (i, m) | _ => None end) l.

Definition progresses (l : list event) : list Z :=
  omap (λ ev, match ev with EvProgress v => Some v | _ => None end) l.

Definition statuses (l : list event) : list string :=
  omap (λ ev, match ev with EvStatus t => Some t | _ => None end) l.

(** The text [f"{i}/{n}"]. *)
Definition progress_text (n i : Z) : string := pretty i +:+ "/" +:+ pretty n.

(** What [worker] emits once item number [i] of [n] has given [r.2]. *)
Definition item_events (n i : Z) (r : Path * option string) : list event :=
  [EvReturn r.1 r.2; EvProgress i; EvStatus (progress_text n i)].

(** The same for the items [rs] in a row, the first being number [i]. *)
Fixpoint notes (n i : Z) (rs : list (Path * option string)) : list event :=
  match rs with
  | [] => []
  | r :: rs' => item_events n i r ++ notes n (i + 1) rs'
  end.

Definition failed (r : Path * option string) : bool :=
  match r.2 with Some _ => true | None => false end.

Definition failures (rs : list (Path * option string)) : nat :=
  List.length (filter (λ r, failed r = true) rs).

Definition successes (rs : list (Path * option string)) : nat :=
  List.length (filter (λ r, failed r = false) rs).


(** ** Further properties of strings and paths, for the statements below *)

Fixpoint dot_free (s : string) : bool :=
  match s with
  | EmptyString => true
  | String c s' => negb (bool_decide (c = "."%char)) && dot_free s'
  end.

(** The files after the encoder calls of a log, replayed in order on
    [fs]. *)
Definition replay
    (pil_save : FS → Image → Path → gmap string pvalue → outcome unit * FS)
    (fs : FS) (l : list event) : FS :=
  foldl (λ fs ev, match ev with
                  | EvSave im out ps => (pil_save fs im out ps).2
                  | _ => fs
                  end) fs l.


(** The encoder call, if this is one, is on a path where [fs] has
    nothing. *)
Definition saves_on_free (fs : FS) (ev : event) : Prop :=
  match ev with
  | EvSave _ out _ => fs !! out = None
  | _ => True
  end.

(** What a run emits for items in a row, the first being number [i]:
    for each of them the calls of the encoder made for it, then its three
    notifications. *)
Fixpoint trace (n i : Z) (steps : list (list event * (Path * option string)))
    : list event :=
  match steps with
  | [] => []
  | (es, r) :: steps' => es ++ item_events n i r ++ trace n (i + 1) steps'
  end.


(** The order of the texts of two paths, as [str] has it. *)
Definition text_le (p q : Path) : Prop :=
  String.leb (path_str p) (path_str q) = true.

(** A part of a path: no slash, not empty, not the dot. A well-formed
    path is made of such parts, after a root if it has one. *)
Definition wf_part (c : string) : bool :=
  slash_free c && negb (bool_decide (c = "")) && negb (bool_decide (c = ".")).

Definition wf_path (p : Path) : bool :=
  match p with
  | [] => true
  | c :: tl => (is_root c || wf_part c) && forallb wf_part tl
  end.

(** ** The window: fields and the Convert button *)

(** The Tk variables that [start_conversion] reads. A spinbox takes any text, so reading [quality_var] or [speed_var]
    gives a number or raises. *)
Record Vars := mkVars {
  src_var : string;
  dst_var : string;
  recursive_var : bool;
  overwrite_var : bool;
  keep_exif_var : bool;
  lossless_var : bool;
  quality_var : outcome Z;
  speed_var : outcome Z;
  prefix_var : string
}.

Definition set_src_var (t : string) (v : Vars) : Vars :=
  {| src_var := t; dst_var := dst_var v; recursive_var := recursive_var v;
     overwrite_var := overwrite_var v; keep_exif_var := keep_exif_var v;
     lossless_var := lossless_var v; quality_var := quality_var v;
     speed_var := speed_var v; prefix_var := prefix_var v |}.

Definition set_dst_var (t : string) (v : Vars) : Vars :=
  {| src_var := src_var v; dst_var := t; recursive_var := recursive_var v;
     overwrite_var := overwrite_var v; keep_exif_var := keep_exif_var v;
     lossless_var := lossless_var v; quality_var := quality_var v;
     speed_var := speed_var v; prefix_var := prefix_var v |}.

(** What [start_conversion] does on the window before it returns. *)
Inductive ui_call :=
| ShowError (title text : string)
    (** [messagebox.showerror(title, text)] *)
| ShowInfo (title text : string)
    (** [messagebox.showinfo(title, text)] *)
| ButtonConfig (state : string)
    (** [btn_convert.config(state=state)] *)
| ProgConfig (value maximum : Z)
    (** [prog.config(value=value, maximum=maximum)] *)
| StatusSet (text : string).
    (** [status_var.set(text)] *)

Global Instance ui_call_eq_dec : EqDecision ui_call.
Proof. solve_decision. Defined.

(** How [start_conversion] ends: an exception leaves it, it returns
    without more, or it has started the thread of [worker] on a list of
    items with the options read from the window. *)
Inductive started :=
| Crashed (e : string)
| Returned
| Started (o : Options) (items : list Path).

(** The truth value of a path: [pathlib] paths define neither [__bool__]
    nor [__len__], so every path is true. *)
Definition path_truthy (p : Path) : bool := true.

Section Window.

(** [p.expanduser()], which raises when no home folder is found. *)
Variable expanduser : Path → outcome Path.

(** [dst.mkdir(parents=True, exist_ok=True)] on the current files:
    whether it raises, and the files afterwards. *)
Variable mkdir : FS → Path → outcome unit * FS.

Definition start_conversion (v : Vars) (fs : FS)
    : FS * list ui_call * started :=
  match expanduser (parse_path (Str.strip (src_var v))) with
  | Raise e => (fs, [], Crashed e)
  | Ok src =>
  match expanduser (parse_path (Str.strip (dst_var v))) with
  | Raise e => (fs, [], Crashed e)
  | Ok dst =>
      if negb (exists_ fs src) then
        (fs, [ShowError "Error" "Pick a valid source file or folder"],
         Returned)
      else if negb (path_truthy dst) then
        (fs, [ShowError "Error" "Pick a destination folder"], Returned)
      else
        match mkdir fs dst with
        | (Raise e, fs) => (fs, [], Crashed e)
        | (Ok _, fs) =>
            let recursive := recursive_var v in
            let overwrite := overwrite_var v in
            let keep_exif := keep_exif_var v in
            let lossless := lossless_var v in
            match quality_var v with
            | Raise e => (fs, [], Crashed e)
            | Ok quality =>
            match speed_var v with
            | Raise e => (fs, [], Crashed e)
            | Ok speed =>
                let prefix := normalize_prefix (prefix_var v) in
                let items := collect_images fs src recursive in
                match items with
                | [] =>
                    (fs, [ShowInfo "Nothing to do" "No supported images found"],
                     Returned)
                | _ :: _ =>
                    let n := Z.of_nat (List.length items) in
                    (fs,
                     [ButtonConfig "disabled"; ProgConfig 0 n;
                      StatusSet ("Converting " +:+ pretty n +:+ " file(s)...")],
                     Started (mkOptions dst overwrite quality speed lossless
                                keep_exif prefix) items)
                end
            end
            end
        end
  end
  end.

End Window.

(** ** Queries that fail

    Up to Python 3.13, [Path.exists], [is_file] and [is_dir] answer
    [False] when [os.stat] fails with [ENOENT], [ENOTDIR], [EBADF] or
    [ELOOP] and let every other [OSError] through: a name longer than the
    filesystem takes ([ENAMETOOLONG]), a folder that may not be searched
    ([EACCES]). [exists_], [is_file] and [is_dir] above are these queries
    on a filesystem where [os.stat] has no such failure, and [glob] and
    [rglob] list a tree without symbolic links. The module [Os] gives
    the same functions of [converter.py] without these two assumptions:
    a query answers or raises, and the listing of a folder is what
    [pathlib] yields. *)

Module Os.

Section Queries.

(** [stat_error fs p] is the text of the [OSError] that [os.stat(p)]
    raises and [pathlib] lets through, when there is one. *)
Variable stat_error : FS → Path → option string.

Definition exists_ (fs : FS) (p : Path) : outcome bool :=
  match stat_error fs p with
  | Some e => Raise e
  | None => Ok (bool_decide (is_Some (fs !! p)))
  end.

Definition is_file (fs : FS) (p : Path) : outcome bool :=
  match stat_error fs p with
  | Some e => Raise e
  | None => Ok (bool_decide (fs !! p = Some KFile))
  end.

Definition is_dir (fs : FS) (p : Path) : outcome bool :=
  match stat_error fs p with
  | Some e => Raise e
  | None => Ok (bool_decide (fs !! p = Some KDir))
  end.

(** [src.glob("*")] and [src.rglob("*")]: the entries that [pathlib]
    yields, in its order. [rglob] does not enter a folder that is a
    symbolic link, and a folder that may not be read is passed over. *)
Variable glob : FS → Path → list Path.
Variable rglob : FS → Path → list Path.

(** The list comprehension of [collect_images]: [p.is_file()] is asked
    of every entry, in the order of the listing, and the first query
    that raises ends the comprehension. *)
Fixpoint keep_images (fs : FS) (it : list Path) : outcome (list Path) :=
  match it with
  | [] => Ok []
  | p :: it' =>
      match is_file fs p with
      | Raise e => Raise e
      | Ok b =>
          match keep_images fs it' with
          | Raise e => Raise e
          | Ok l => Ok (if b && recognized p then p :: l else l)
          end
      end
  end.

Definition collect_images (fs : FS) (src : Path) (recursive : bool)
    : outcome (list Path) :=
  match is_file fs src with
  | Raise e => Raise e
  | Ok true => Ok (if recognized src then [src] else [])
  | Ok false =>
      match is_dir fs src with
      | Raise e => Raise e
      | Ok false => Ok []
      | Ok true =>
          let it := if recursive then rglob fs src else glob fs src in
          match keep_images fs it with
          | Raise e => Raise e
          | Ok l => Ok (sorted l)
          end
      end
  end.

(** The [while True] probe from [n]: it ends on the first candidate that
    is free, or on the first query that raises. *)
Fixpoint probe (fuel : nat) (fs : FS) (dst_dir : Path) (stm : string)
    (n : Z) : option (outcome Path) :=
  match fuel with
  | O => None
  | S fuel' =>
      let cand := candidate dst_dir stm n in
      match exists_ fs cand with
      | Raise e => Some (Raise e)
      | Ok false => Some (Ok cand)
      | Ok true => probe fuel' fs dst_dir stm (n + 1)
      end
  end.

(** The path [convert_one] hands to [save_avif]; [out.exists()] is asked
    before [overwrite] is looked at. *)
Definition resolve_out (fuel : nat) (fs : FS) (dst_dir : Path)
    (overwrite : bool) (prefix : option string) (src : Path)
    : option (outcome Path) :=
  let stm := target_stem prefix src in
  let out := joinpath dst_dir (stm +:+ ".avif") in
  match exists_ fs out with
  | Raise e => Some (Raise e)
  | Ok b => if b && negb overwrite then probe fuel fs dst_dir stm 2
            else Some (Ok out)
  end.

Variable pil_open : FS → Path → outcome Image.
Variable pil_save :
  FS → Image → Path → gmap string pvalue → outcome unit * FS.

(** [convert_one]: it returns a message or [None], or an [OSError] of
    the queries between its two [try] blocks leaves it. *)
Definition convert_one (fuel : nat) (w : World) (src dst_dir : Path)
    (overwrite : bool) (quality speed : Z) (lossless keep_exif : bool)
    (prefix : option string) : option (outcome (option string) * World) :=
  match pil_open (fs w) src with
  | Raise e => Some (Ok (Some ("Skip " +:+ name src +:+ ": " +:+ e)), w)
  | Ok im =>
      let im2 := prepare_mode im in
      match resolve_out fuel (fs w) dst_dir overwrite prefix src with
      | None => None
      | Some (Raise e) => Some (Raise e, w)
      | Some (Ok out) =>
          match save_avif pil_save w im2 out quality speed lossless
                  keep_exif with
          | (Ok _, w') => Some (Ok None, w')
          | (Raise e, w') =>
              Some (Ok (Some ("Failed " +:+ name src +:+ ": " +:+ e)), w')
          end
      end
  end.

(** The loop of [worker], which has no [try]: what leaves [convert_one]
    leaves the loop. *)
Fixpoint worker_loop (fuel : nat) (o : Options) (n : Z) (rest : list Path)
    (i : Z) (errors : Z) (w : World) : option (outcome Z * World) :=
  match rest with
  | [] => Some (Ok errors, w)
  | item :: rest' =>
      match convert_one fuel w item (dst o) (overwrite o) (quality o)
              (speed o) (lossless o) (keep_exif o) (prefix o) with
      | None => None
      | Some (Raise e, w) => Some (Raise e, w)
      | Some (Ok msg, w) =>
          let w := emit (EvReturn item msg) w in
          let w := emit (EvProgress i) w in
          let errors := if truthy msg then errors + 1 else errors in
          let w := emit (EvStatus (pretty i +:+ "/" +:+ pretty n)) w in
          worker_loop fuel o n rest' (i + 1) errors w
      end
  end.

Definition worker (fuel : nat) (o : Options) (items : list Path)
    (w : World) : option (outcome unit * World) :=
  let n := Z.of_nat (List.length items) in
  match worker_loop fuel o n items 1 0 w with
  | None => None
  | Some (Raise e, w) => Some (Raise e, w)
  | Some (Ok errors, w) =>
      let w := emit (EvStatus (done_text (n - errors) errors (dst o))) w in
      Some (Ok (), emit (EvButton "normal") w)
  end.

Variable expanduser : Path → outcome Path.
Variable mkdir : FS → Path → outcome unit * FS.

Definition start_conversion (v : Vars) (fs : FS)
    : FS * list ui_call * started :=
  match expanduser (parse_path (Str.strip (src_var v))) with
  | Raise e => (fs, [], Crashed e)
  | Ok src =>
  match expanduser (parse_path (Str.strip (dst_var v))) with
  | Raise e => (fs, [], Crashed e)
  | Ok dst =>
  match exists_ fs src with
  | Raise e => (fs, [], Crashed e)
  | Ok false =>
      (fs, [ShowError "Error" "Pick a valid source file or folder"],
       Returned)
  | Ok true =>
      if negb (path_truthy dst) then
        (fs, [ShowError "Error" "Pick a destination folder"], Returned)
      else
        match mkdir fs dst with
        | (Raise e, fs) => (fs, [], Crashed e)
        | (Ok _, fs) =>
            let recursive := recursive_var v in
            let overwrite := overwrite_var v in
            let keep_exif := keep_exif_var v in
            let lossless := lossless_var v in
            match quality_var v with
            | Raise e => (fs, [], Crashed e)
            | Ok quality =>
            match speed_var v with
            | Raise e => (fs, [], Crashed e)
            | Ok speed =>
                let prefix := normalize_prefix (prefix_var v) in
                match collect_images fs src recursive with
                | Raise e => (fs, [], Crashed e)
                | Ok [] =>
                    (fs, [ShowInfo "Nothing to do" "No supported images found"],
                     Returned)
                | Ok items =>
                    let n := Z.of_nat (List.length items) in
                    (fs,
                     [ButtonConfig "disabled"; ProgConfig 0 n;
                      StatusSet ("Converting " +:+ pretty n +:+ " file(s)...")],
                     Started (mkOptions dst overwrite quality speed lossless
                                keep_exif prefix) items)
                end
            end
            end
        end
  end
  end
  end.

End Queries.

(** The filesystem where no query fails. *)
Definition no_error (fs : FS) (p : Path) : option string := None.

End Os.

(** ** A sample run

    A source folder with pictures, a text file and a sub-folder, a
    destination folder where [a.avif] and [a_2.avif] are already there, a
    decoder that fails on [b.JPG] and an encoder that fails on pictures
    named [c.gif]. *)

Module Sample.

Definition pics : Path := ["/"; "pics"].
Definition out_dir : Path := ["/"; "out"].

Definition files : FS :=
  list_to_map
    [ (pics, KDir);
      (pics ++ ["a.png"], KFile);
      (pics ++ ["b.JPG"], KFile);
      (pics ++ ["notes.txt"], KFile);
      (pics ++ ["sub"], KDir);
      (pics ++ ["sub"; "c.gif"], KFile);
      (pics ++ ["sub-1.png"], KFile);
      (pics ++ ["x.png"], KDir);
      (pics ++ ["pipe.png"], KOther);
      (out_dir, KDir);
      (out_dir ++ ["a.avif"], KFile);
      (out_dir ++ ["a_2.avif"], KFile) ].

Definition decoder (f : FS) (p : Path) : outcome Image :=
  if bool_decide (name p = "b.JPG")
  then Raise "cannot identify image file"
  else Ok {| mode := "LA";
             info := {[ "exif" := "Exif-bytes"; "icc_profile" := "sRGB" ]};
             pixels := name p |}.

Definition encoder (f : FS) (im : Image) (out : Path)
    (params : gmap string pvalue) : outcome unit * FS :=
  if bool_decide (pixels im = "c.gif") then (Raise "disk full", f)
  else (Ok (), <[out := KFile]> f).

Definition options : Options :=
  {| dst := out_dir; overwrite := false; quality := 80; speed := 6;
     lossless := false; keep_exif := true; prefix := None |}.

Definition start : World := {| fs := files; log := [] |}.

End Sample.

(** A sample window: the home folder is of no use and the destination
    folder is made as one entry. *)
Module SampleWindow.

Definition expanduser (p : Path) : outcome Path := Ok p.

Definition mkdir (f : FS) (p : Path) : outcome unit * FS :=
  match f !! p with
  | Some KDir => (Ok (), f)
  | Some _ => (Raise "File exists", f)
  | None => (Ok (), <[p := KDir]> f)
  end.

Definition vars : Vars :=
  {| src_var := " /pics "; dst_var := "/out"; recursive_var := false;
     overwrite_var := false; keep_exif_var := true; lossless_var := false;
     quality_var := Ok 80; speed_var := Ok 6; prefix_var := "" |}.

End SampleWindow.

(** A folder with a picture whose name is nearly as long as a name may
    be, on a filesystem that takes names of 255 bytes at most, and a
    destination folder where the output of that picture is already
    there. *)
Module LongNames.

Fixpoint ms (n : nat) : string :=
  match n with
  | O => ""
  | S n' => String "m"%char (ms n')
  end.

Definition long_stem : string := ms 250.

Definition files : FS :=
  list_to_map
    [ (Sample.pics, KDir);
      (Sample.pics ++ ["a.png"], KFile);
      (Sample.pics ++ [long_stem +:+ ".png"], KFile);
      (Sample.pics ++ ["sub-1.png"], KFile);
      (Sample.out_dir, KDir);
      (Sample.out_dir ++ [long_stem +:+ ".avif"], KFile) ].

(** [os.stat] on a part of more than 255 bytes: [ENAMETOOLONG]. *)
Definition stat_error (f : FS) (p : Path) : option string :=
  if forallb (λ c, (String.length c <=? 255)%nat) p then None
  else Some "[Errno 36] File name too long".

Definition items : list Path :=
  [ Sample.pics ++ ["a.png"];
    Sample.pics ++ [long_stem +:+ ".png"];
    Sample.pics ++ ["sub-1.png"] ].

Definition start : World := {| fs := files; log := [] |}.

End LongNames.

(** A source folder with a link to a folder of pictures kept elsewhere:
    [/pics/link] is a symbolic link to [/store], so [/pics/link/e.png] is
    a regular file; [rglob] lists [link] and does not enter it. *)
Module Links.

Definition link : Path := Sample.pics ++ ["link"].

Definition files : FS :=
  list_to_map
    [ (Sample.pics, KDir);
      (Sample.pics ++ ["a.png"], KFile);
      (link, KDir);
      (link ++ ["e.png"], KFile);
      (["/"; "store"], KDir);
      (["/"; "store"; "e.png"], KFile) ].

Definition rglob (f : FS) (src : Path) : list Path :=
  filter (λ p, negb (is_below link p)) (rglob f src).

End Links.

(** * Properties *)

(** ** Strings *)

Lemma app_cons_str (c : ascii) (a b : string) :
  String c a +:+ b = String c (a +:+ b).
Proof. reflexivity. Qed.

Lemma app_nil_l_str (b : string) : "" +:+ b = b.
Proof. reflexivity. Qed.

Lemma app_length_str (a b : string) :
  String.length (a +:+ b) = (String.length a + String.length b)%nat.
Proof.
  induction a as [|x a IH]; [done|].
  rewrite app_cons_str. simpl. by rewrite IH.
Qed.

Lemma app_inj_r_str (a b t : string) : a +:+ t = b +:+ t → a = b.
Proof.
  revert b. induction a as [|x a IH]; intros [|y b] H.
  - done.
  - apply (f_equal String.length) in H.
    rewrite !app_length_str in H. simpl in H. lia.
  - apply (f_equal String.length) in H.
    rewrite !app_length_str in H. simpl in H. lia.
  - rewrite !app_cons_str in H. injection H as -> H. f_equal. by apply IH.
Qed.

Lemma slash_free_app (a b : string) :
  slash_free (a +:+ b) = slash_free a && slash_free b.
Proof.
  induction a as [|x a IH]; [done|].
  rewrite app_cons_str. simpl. rewrite IH. by rewrite andb_assoc.
Qed.

Lemma pretty_N_go_slash_free (x : N) (s : string) :
  slash_free s = true → slash_free (pretty_N_go x s) = true.
Proof.
  revert s. induction (N.lt_wf_0 x) as [x _ IH]; intros s Hs.
  destruct (decide (x = 0)%N) as [->|Hx]; [by rewrite pretty_N_go_0|].
  rewrite pretty_N_go_step by lia. apply IH.
  - apply N.div_lt; lia.
  - simpl. rewrite Hs, andb_true_r.
    unfold pretty_N_char. by repeat case_match.
Qed.

Lemma pretty_Z_slash_free (n : Z) : 0 <= n → slash_free (pretty n) = true.
Proof.
  intros Hn. destruct n as [|p|p]; [done| |lia].
  unfold pretty, pretty_Z, pretty, pretty_positive, pretty, pretty_N.
  case_decide; [done|]. by apply pretty_N_go_slash_free.
Qed.

(** ** Splitting and joining *)

Lemma split_slash_snoc (a b : string) :
  slash_free b = true →
  ∃ ini l, Str.split_slash a = ini ++ [l]
           ∧ Str.split_slash (a +:+ b) = ini ++ [l +:+ b].
Proof.
  intros Hb. induction a as [|c a (ini & l & Ha & Hab)];
    rewrite ?app_cons_str, ?app_nil_l_str; simpl.
  - exists [], "". split; [done|]. simpl. rewrite app_nil_l_str.
    clear -Hb. induction b as [|c b IH]; simpl; [done|].
    simpl in Hb. apply andb_true_iff in Hb as [Hc Hb].
    apply negb_true_iff, bool_decide_eq_false in Hc.
    rewrite decide_False by done. by rewrite (IH Hb).
  - case_decide.
    + exists ("" :: ini), l. by rewrite Ha, Hab.
    + rewrite Ha, Hab. destruct ini as [|w ini]; simpl.
      * by exists [], (String c l).
      * by exists (String c w :: ini), l.
Qed.

Lemma leading_slashes_split_root (s : string) :
  Forall (λ c, is_root c = false) (Str.split_slash s).
Proof.
  assert (∀ s, Forall (λ c, slash_free c = true) (Str.split_slash s)) as H.
  { clear s. intros s. induction s as [|c s IH]; simpl.
    - by repeat constructor.
    - case_decide; [by constructor|].
      destruct (Str.split_slash s) as [|w ws].
      + constructor; [|done]. simpl. by rewrite bool_decide_eq_false_2.
      + inversion_clear IH. constructor; [|done]. simpl.
        by rewrite bool_decide_eq_false_2. }
  eapply Forall_impl; [apply H|]. intros c Hc. unfold is_root.
  destruct (bool_decide_reflect (c = "/")) as [->|]; [done|].
  destruct (bool_decide_reflect (c = "//")) as [->|]; done.
Qed.

(** The last part of [d / (a + b)] when [b] has no slash and two
    characters or more. *)
Lemma joinpath_last (d : Path) (a b : string) :
  slash_free b = true → (2 <= String.length b)%nat →
  ∃ l, last (joinpath d (a +:+ b)) = Some (l +:+ b)
       ∧ last (Str.split_slash a) = Some l.
Proof.
  intros Hb Hlen. destruct (split_slash_snoc a b Hb) as (ini & l & Ha & Hab).
  exists l. split; [|by rewrite Ha, last_snoc].
  assert (l +:+ b ≠ "" ∧ l +:+ b ≠ ".") as Hkeep.
  { split; intros E; apply (f_equal String.length) in E;
      rewrite app_length_str in E; simpl in E; lia. }
  assert (∃ q, parse_path (a +:+ b) = q ++ [l +:+ b]) as [q Hq].
  { unfold parse_path. rewrite Hab, filter_app, filter_cons_True by done.
    simpl. repeat case_match; eexists; by rewrite ?app_comm_cons. }
  unfold joinpath. rewrite Hq.
  case_match; by rewrite ?app_assoc, last_snoc.
Qed.

Lemma candidate_inj (dst_dir : Path) (stm : string) (n m : Z) :
  0 <= n → 0 <= m →
  candidate dst_dir stm n = candidate dst_dir stm m → n = m.
Proof.
  intros Hn Hm E. unfold candidate in E.
  pose proof (pretty_Z_slash_free n Hn) as Fn.
  pose proof (pretty_Z_slash_free m Hm) as Fm.
  assert (∀ k : Z, slash_free (pretty k) = true →
    slash_free ("_" +:+ pretty k +:+ ".avif") = true
    ∧ (2 <= String.length ("_" +:+ pretty k +:+ ".avif"))%nat) as Hk.
  { intros k Fk. split.
    - by rewrite !slash_free_app, Fk.
    - rewrite !app_length_str. simpl. lia. }
  destruct (Hk n Fn) as [Sn Ln], (Hk m Fm) as [Sm Lm].
  destruct (joinpath_last dst_dir stm _ Sn Ln) as (l1 & H1 & L1).
  destruct (joinpath_last dst_dir stm _ Sm Lm) as (l2 & H2 & L2).
  rewrite E in H1. rewrite H1 in H2. rewrite L1 in L2.
  injection L2 as ->. injection H2 as H2.
  apply String.app_inj in H2. rewrite !app_cons_str, !app_nil_l_str in H2.
  injection H2 as H2. apply app_inj_r_str in H2. by apply (inj pretty).
Qed.

(** ** The collision probe *)

Lemma exists_true (fs : FS) (p : Path) :
  exists_ fs p = true ↔ is_Some (fs !! p).
Proof. unfold exists_. apply bool_decide_eq_true. Qed.

Lemma exists_false (fs : FS) (p : Path) :
  exists_ fs p = false ↔ fs !! p = None.
Proof.
  unfold exists_. rewrite bool_decide_eq_false. symmetry.
  apply eq_None_not_Some.
Qed.

(** A probe that ends gives the first free candidate at or after [n]. *)
Lemma probe_Some (fuel : nat) (fs : FS) (dst_dir : Path) (stm : string)
    (n : Z) (p : Path) :
  probe fuel fs dst_dir stm n = Some p →
  ∃ k, n <= k ∧ p = candidate dst_dir stm k ∧ fs !! p = None
       ∧ ∀ j, n <= j < k → is_Some (fs !! candidate dst_dir stm j).
Proof.
  revert n. induction fuel as [|fuel IH]; intros n H; simpl in H; [done|].
  destruct (exists_ fs (candidate dst_dir stm n)) eqn:E; simpl in H.
  - destruct (IH _ H) as (k & Hk & -> & Hfree & Hbusy).
    exists k. repeat split; [lia|done|]. intros j Hj.
    destruct (decide (j = n)) as [->|]; [by apply exists_true|].
    apply Hbusy. lia.
  - injection H as <-. exists n. repeat split; [lia|by apply exists_false|].
    intros j Hj. lia.
Qed.

(** A probe that runs out of fuel has found every candidate taken. *)
Lemma probe_None (fuel : nat) (fs : FS) (dst_dir : Path) (stm : string)
    (n : Z) :
  probe fuel fs dst_dir stm n = None →
  ∀ j, n <= j < n + Z.of_nat fuel → is_Some (fs !! candidate dst_dir stm j).
Proof.
  revert n. induction fuel as [|fuel IH]; intros n H j Hj; [lia|].
  simpl in H.
  destruct (exists_ fs (candidate dst_dir stm n)) eqn:E; simpl in H; [|done].
  destruct (decide (j = n)) as [->|]; [by apply exists_true|].
  apply (IH _ H). lia.
Qed.

Lemma probe_mono (fuel fuel' : nat) (fs : FS) (dst_dir : Path) (stm : string)
    (n : Z) (p : Path) :
  probe fuel fs dst_dir stm n = Some p → (fuel ≤ fuel')%nat →
  probe fuel' fs dst_dir stm n = Some p.
Proof.
  revert fuel' n. induction fuel as [|fuel IH]; intros fuel' n H Hle; [done|].
  destruct fuel' as [|fuel']; [lia|]. simpl in *.
  destruct (exists_ fs (candidate dst_dir stm n)); simpl in *; [|done].
  apply IH; [done|lia].
Qed.

(** The files are finitely many and the candidates pairwise distinct, so
    the probe ends: more iterations than there are entries suffice. *)
Lemma probe_total (fuel : nat) (fs : FS) (dst_dir : Path) (stm : string)
    (n : Z) :
  0 <= n → (size fs < fuel)%nat →
  is_Some (probe fuel fs dst_dir stm n).
Proof.
  intros Hn Hfuel.
  destruct (probe fuel fs dst_dir stm n) eqn:E; [by eexists|exfalso].
  pose proof (probe_None _ _ _ _ _ E) as Hbusy.
  set (l := candidate dst_dir stm <$> seqZ n (Z.of_nat fuel)).
  assert (NoDup l) as Hnd.
  { apply NoDup_fmap_2_strong; [|apply NoDup_seqZ].
    intros x y Hx%elem_of_seqZ Hy%elem_of_seqZ.
    apply candidate_inj; lia. }
  assert (list_to_set l ⊆ dom fs) as Hsub.
  { intros p Hp%elem_of_list_to_set.
    apply list_elem_of_fmap in Hp as (j & -> & Hj%elem_of_seqZ).
    apply elem_of_dom. by apply Hbusy. }
  apply subseteq_size in Hsub.
  rewrite size_list_to_set, size_dom in Hsub by done.
  unfold l in Hsub. rewrite length_fmap, length_seqZ in Hsub. lia.
Qed.

Lemma resolve_out_total (fuel : nat) (fs : FS) (dst_dir : Path)
    (ov : bool) (pre : option string) (src : Path) :
  (size fs < fuel)%nat →
  is_Some (resolve_out fuel fs dst_dir ov pre src).
Proof.
  intros Hfuel. unfold resolve_out.
  case_match; [by apply probe_total|by eexists].
Qed.

Lemma resolve_out_mono (fuel fuel' : nat) (fs : FS) (dst_dir : Path)
    (ov : bool) (pre : option string) (src out : Path) :
  resolve_out fuel fs dst_dir ov pre src = Some out → (fuel ≤ fuel')%nat →
  resolve_out fuel' fs dst_dir ov pre src = Some out.
Proof.
  unfold resolve_out. case_match; [|done]. apply probe_mono.
Qed.

(** ** The order on paths *)

Lemma ltb_leb (a b : string) : String.ltb a b = negb (String.leb b a).
Proof.
  unfold String.ltb, String.leb. rewrite (String.compare_antisym a b).
  by destruct (String.compare b a).
Qed.

Lemma ltb_irrefl (a : string) : String.ltb a a = false.
Proof.
  rewrite ltb_leb. apply negb_false_iff, Is_true_true.
  change (String.le a a). done.
Qed.

Lemma ltb_trichotomy (a b : string) :
  a ≠ b → String.ltb a b = false → String.ltb b a = true.
Proof.
  rewrite !ltb_leb. intros Hne Hba%negb_false_iff%Is_true_true.
  apply negb_true_iff. destruct (String.leb a b) eqn:Hab; [|done].
  destruct Hne. apply (anti_symm String.le); [|done]. by apply Is_true_true.
Qed.

Lemma ltb_asym (a b : string) : String.ltb a b = true → String.ltb b a = false.
Proof.
  rewrite !ltb_leb. intros Hba%negb_true_iff. apply negb_false_iff.
  destruct (total String.le a b) as [H|H]; [by apply Is_true_true|].
  apply Is_true_true in H. congruence.
Qed.

Lemma ltb_trans (a b c : string) :
  String.ltb a b = true → String.ltb b c = true → String.ltb a c = true.
Proof.
  intros Hab Hbc. destruct (String.ltb a c) eqn:Hac; [done|exfalso].
  destruct (decide (a = c)) as [->|Hne].
  { apply ltb_asym in Hab. congruence. }
  apply ltb_trichotomy in Hac; [|done].
  rewrite ltb_leb in Hab, Hbc, Hac.
  apply negb_true_iff in Hab, Hbc, Hac.
  assert (String.le a b) as Lab.
  { destruct (total String.le a b) as [H|H]; [done|].
    apply Is_true_true in H. congruence. }
  assert (String.le c a) as Lca.
  { destruct (total String.le c a) as [H|H]; [done|].
    apply Is_true_true in H. congruence. }
  assert (String.le c b) as Lcb by (by etrans).
  apply Is_true_true in Lcb. congruence.
Qed.

Lemma path_ltb_irrefl (p : Path) : path_ltb p p = false.
Proof. induction p as [|a p IH]; simpl; [done|]. by rewrite decide_True. Qed.

Lemma path_ltb_trichotomy (p q : Path) :
  p ≠ q → path_ltb p q = false → path_ltb q p = true.
Proof.
  revert q. induction p as [|a p IH]; intros [|b q] Hne H; simpl in *;
    try done.
  destruct (decide (a = b)) as [->|Hab].
  - rewrite decide_True by done. apply IH; [congruence|done].
  - rewrite decide_False by done. by apply ltb_trichotomy.
Qed.

Lemma path_ltb_asym (p q : Path) :
  path_ltb p q = true → path_ltb q p = false.
Proof.
  revert q. induction p as [|a p IH]; intros [|b q] H; simpl in *; try done.
  destruct (decide (a = b)) as [->|Hab].
  - rewrite decide_True by done. by apply IH.
  - rewrite decide_False by done. by apply ltb_asym.
Qed.

Global Instance path_le_total : Total path_le.
Proof.
  intros p q. unfold path_le.
  destruct (path_ltb q p) eqn:E; [right|by left]. by apply path_ltb_asym.
Qed.

Global Instance path_le_trans : Transitive path_le.
Proof.
  unfold path_le. intros p. induction p as [|a p IH]; intros q r H1 H2.
  { by destruct r. }
  destruct q as [|b q]; [done|]. destruct r as [|c r]; [done|].
  simpl in *.
  destruct (decide (b = a)) as [Hba|Hba], (decide (c = b)) as [Hcb|Hcb];
    simplify_eq.
  - rewrite decide_True by done. by eapply IH.
  - by rewrite decide_False.
  - by rewrite decide_False.
  - assert (String.ltb a c = true) as Hac.
    { apply ltb_trans with b; by apply ltb_trichotomy. }
    destruct (decide (c = a)) as [->|Hca].
    + by rewrite ltb_irrefl in Hac.
    + by apply ltb_asym.
Qed.

Lemma path_le_lt (p q : Path) : path_le p q → p ≠ q → path_lt p q.
Proof. unfold path_le, path_lt. intros H Hne. by apply path_ltb_trichotomy. Qed.

(** [sorted] gives its argument back in increasing order; without
    repetitions the order is strict. *)
Lemma sorted_perm (l : list Path) : sorted l ≡ₚ l.
Proof. apply merge_sort_Permutation. Qed.

Lemma sorted_strongly (l : list Path) : StronglySorted path_le (sorted l).
Proof. apply Sorted_StronglySorted; [apply _|]. apply Sorted_merge_sort, _. Qed.

Lemma strongly_sorted_strict (l : list Path) :
  NoDup l → StronglySorted path_le l → StronglySorted path_lt l.
Proof.
  induction 2 as [|x l Hs IH Hx]; [constructor|].
  apply NoDup_cons in H as [Hx' Hnd]. constructor; [by apply IH|].
  rewrite Forall_forall in Hx |- *. intros y Hy.
  apply path_le_lt; [by apply Hx|]. intros ->. done.
Qed.

Lemma sorted_strict (l : list Path) :
  NoDup l → StronglySorted path_lt (sorted l).
Proof.
  intros Hnd. apply strongly_sorted_strict; [|apply sorted_strongly].
  by rewrite sorted_perm.
Qed.

(** ** Directory listings *)

Lemma relative_to_Some (src p rel : Path) :
  relative_to src p = Some rel ↔ p = src ++ rel.
Proof.
  revert p. induction src as [|a src IH]; intros p; simpl.
  - split; [by intros [= ->]|by intros ->].
  - destruct p as [|b p]; [split; [done|by intros [=]]|].
    case_decide as Hab.
    + subst b. rewrite IH. split; [by intros ->|by intros [= ->]].
    + split; [done|]. intros [= -> _]. done.
Qed.

Lemma is_child_spec (src p : Path) :
  is_child src p = true ↔ ∃ c, p = src ++ [c] ∧ is_root c = false.
Proof.
  unfold is_child. split.
  - destruct (relative_to src p) as [[|c [|]]|] eqn:E; try done.
    intros H%negb_true_iff. exists c. split; [|done].
    by apply relative_to_Some.
  - intros (c & Hp%relative_to_Some & Hc). by rewrite Hp, Hc.
Qed.

Lemma is_below_spec (src p : Path) :
  is_below src p = true ↔
  ∃ cs, cs ≠ [] ∧ p = src ++ cs ∧ Forall (λ c, is_root c = false) cs.
Proof.
  assert (∀ cs : list string,
    forallb (λ c, negb (is_root c)) cs = true
    ↔ Forall (λ c, is_root c = false) cs) as Hall.
  { intros cs. rewrite forallb_forall, Forall_forall.
    setoid_rewrite <-list_elem_of_In. setoid_rewrite negb_true_iff. done. }
  unfold is_below. split.
  - destruct (relative_to src p) as [[|c cs]|] eqn:E; try done.
    intros H%Hall. exists (c :: cs). split; [done|]. split; [|done].
    by apply relative_to_Some.
  - intros (cs & Hne & Hp%relative_to_Some & Hc%Hall). rewrite Hp.
    by destruct cs.
Qed.

Lemma elem_of_keys (fs : FS) (p : Path) :
  p ∈ (map_to_list fs).*1 ↔ is_Some (fs !! p).
Proof.
  rewrite list_elem_of_fmap. split.
  - intros ([q k] & -> & H%elem_of_map_to_list). by exists k.
  - intros [k Hk]. exists (p, k). split; [done|].
    by apply elem_of_map_to_list.
Qed.

(** ** Discovery *)

Lemma collect_images_unfold_dir (fs : FS) (src : Path) (recursive : bool) :
  fs !! src = Some KDir →
  collect_images fs src recursive =
  sorted (filter (λ p, is_file fs p && recognized p)
            (if recursive then rglob fs src else glob fs src)).
Proof.
  intros Hdir. unfold collect_images, is_file, is_dir. rewrite Hdir.
  rewrite bool_decide_eq_false_2 by done.
  by rewrite bool_decide_eq_true_2.
Qed.

Lemma listing_NoDup (fs : FS) (src : Path) (recursive : bool) :
  NoDup (filter (λ p, is_file fs p && recognized p)
           (if recursive then rglob fs src else glob fs src)).
Proof.
  apply NoDup_filter. unfold rglob, glob.
  destruct recursive; apply NoDup_filter, NoDup_fst_map_to_list.
Qed.

(** On a tree without links where no query fails: on a directory,
    discovery gives exactly the regular files with a recognised extension
    (lower-cased) that lie below it, at any depth when [recursive] and
    directly in it otherwise, each once and in increasing order of their
    paths, compared part by part. *)
Theorem collect_images_dir (fs : FS) (src : Path) (recursive : bool)
    (Hdir : fs !! src = Some KDir) :
  (∀ p, p ∈ collect_images fs src recursive ↔
        fs !! p = Some KFile
        ∧ Str.lower (suffix p) ∈ COMMON_EXTS
        ∧ if recursive
          then ∃ cs, cs ≠ [] ∧ p = src ++ cs
                     ∧ Forall (λ c, is_root c = false) cs
          else ∃ c, p = src ++ [c] ∧ is_root c = false)
  ∧ StronglySorted path_lt (collect_images fs src recursive)
  ∧ NoDup (collect_images fs src recursive).
Proof.
  rewrite collect_images_unfold_dir by done.
  pose proof (listing_NoDup fs src recursive) as Hnd.
  split; [|split].
  - intros p. rewrite sorted_perm, list_elem_of_filter.
    rewrite andb_True. unfold is_file, recognized.
    rewrite !bool_decide_spec.
    destruct recursive; unfold rglob, glob; rewrite list_elem_of_filter,
      elem_of_keys, Is_true_true, ?is_below_spec, ?is_child_spec.
    + split; [by intros ((Hf & He) & Hb & _)|].
      intros (Hf & He & Hb). rewrite Hf. eauto.
    + split; [by intros ((Hf & He) & Hb & _)|].
      intros (Hf & He & Hb). rewrite Hf. eauto.
  - by apply sorted_strict.
  - by rewrite sorted_perm.
Qed.

Lemma collect_images_dir_witness :
  Sample.files !! Sample.pics = Some KDir
  ∧ StronglySorted path_lt (collect_images Sample.files Sample.pics true).
Proof.
  split; [by vm_compute|].
  apply (collect_images_dir Sample.files Sample.pics true). by vm_compute.
Defined.

Example collect_images_recursive :
  collect_images Sample.files Sample.pics true =
  [ ["/"; "pics"; "a.png"]; ["/"; "pics"; "b.JPG"];
    ["/"; "pics"; "sub"; "c.gif"]; ["/"; "pics"; "sub-1.png"] ].
Proof. by vm_compute. Qed.

(** Paths are compared part by part: the folder [sub] comes before its
    sibling [sub-1.png], though the texts of the two paths compare the
    other way, the hyphen being below the separator. *)
Example path_order_by_parts :
  path_ltb ["/"; "pics"; "sub"; "c.gif"] ["/"; "pics"; "sub-1.png"] = true
  ∧ String.ltb (path_str ["/"; "pics"; "sub-1.png"])
               (path_str ["/"; "pics"; "sub"; "c.gif"]) = true.
Proof. by vm_compute. Qed.

Example collect_images_flat :
  collect_images Sample.files Sample.pics false =
  [ ["/"; "pics"; "a.png"]; ["/"; "pics"; "b.JPG"];
    ["/"; "pics"; "sub-1.png"] ].
Proof. by vm_compute. Qed.

(** Where no query fails: on a regular file, discovery gives that file
    alone when its lower-cased extension is recognised and nothing
    otherwise; on a path that is neither a regular file nor a directory it
    gives nothing. *)
Theorem collect_images_file (fs : FS) (src : Path) (recursive : bool) :
  (fs !! src = Some KFile →
   collect_images fs src recursive =
   if bool_decide (Str.lower (suffix src) ∈ COMMON_EXTS) then [src] else [])
  ∧ (fs !! src ≠ Some KFile → fs !! src ≠ Some KDir →
     collect_images fs src recursive = []).
Proof.
  unfold collect_images, is_file, is_dir, recognized. split.
  - intros Hf. by rewrite bool_decide_eq_true_2.
  - intros Hf Hd. by rewrite !bool_decide_eq_false_2.
Qed.

Lemma collect_images_file_witness :
  collect_images Sample.files ["/"; "pics"; "b.JPG"] true
    = [["/"; "pics"; "b.JPG"]]
  ∧ collect_images Sample.files ["/"; "pics"; "notes.txt"] true = []
  ∧ collect_images Sample.files ["/"; "pics"; "pipe.png"] true = []
  ∧ collect_images Sample.files ["/"; "nowhere"] true = [].
Proof.
  split; [|split; [|split]].
  - by rewrite (proj1 (collect_images_file Sample.files _ true)).
  - by rewrite (proj1 (collect_images_file Sample.files _ true)).
  - by apply (proj2 (collect_images_file Sample.files _ true)).
  - by apply (proj2 (collect_images_file Sample.files _ true)).
Defined.

(** ** Colour mode *)

(** [prepare_mode] converts an image whose mode is [RGBA] or [LA] to
    [RGBA], and every other image to [RGB]; what it gives is always in one
    of these two modes. *)
Theorem prepare_mode_modes (im : Image) :
  prepare_mode im =
    (if bool_decide (mode im = "RGBA" ∨ mode im = "LA")
     then convert im "RGBA" else convert im "RGB")
  ∧ mode (prepare_mode im) =
      (if bool_decide (mode im = "RGBA" ∨ mode im = "LA")
       then "RGBA" else "RGB")
  ∧ (mode (prepare_mode im) = "RGBA" ∨ mode (prepare_mode im) = "RGB").
Proof.
  unfold prepare_mode.
  assert (mode im ∈ ["RGBA"; "LA"] ↔ mode im = "RGBA" ∨ mode im = "LA") as E.
  { rewrite !elem_of_cons, elem_of_nil.
    split; [intros [?|[?|[]]]; auto|intros [?|?]; auto]. }
  rewrite (bool_decide_ext _ _ E).
  destruct (bool_decide (mode im = "RGBA" ∨ mode im = "LA")); simpl; auto.
Qed.


Example prepare_mode_palette :
  mode (prepare_mode {| mode := "P"; info := ∅; pixels := "" |}) = "RGB".
Proof. reflexivity. Qed.

(** ** The arguments of the encoder *)


(** ** The name of the target *)

Lemma take_drop_str (i : nat) (s : string) : Str.take i s +:+ Str.drop i s = s.
Proof.
  revert i. induction s as [|c s IH]; intros [|i]; try done.
  simpl. rewrite app_cons_str. by rewrite IH.
Qed.

Lemma app_nil_r_str (s : string) : s +:+ "" = s.
Proof.
  induction s as [|c s IH]; [done|]. rewrite app_cons_str. by rewrite IH.
Qed.

Lemma app_assoc_str (a b c : string) : (a +:+ b) +:+ c = a +:+ (b +:+ c).
Proof.
  induction a as [|x a IH]; [done|]. rewrite !app_cons_str. by rewrite IH.
Qed.

(** The stem is the name without its extension. *)
Lemma stem_suffix (p : Path) : stem p +:+ suffix p = name p.
Proof.
  unfold stem, suffix. destruct (Str.rfind_dot (name p)) as [i|].
  - case_bool_decide; [apply take_drop_str|apply app_nil_r_str].
  - apply app_nil_r_str.
Qed.

(** C7. The target is named [prefix_stem.avif] when a (non-empty) prefix
    is given and [stem.avif] when none is, where [stem] is the name of the
    source without its extension; it is looked for in the destination
    folder. *)
Theorem target_name_spec (src : Path) (p : string) (Hp : p ≠ "") :
  target_name (Some p) src = p +:+ "_" +:+ stem src +:+ ".avif"
  ∧ target_name None src = stem src +:+ ".avif"
  ∧ stem src +:+ suffix src = name src
  ∧ ∀ fuel fs dst_dir pre,
      resolve_out fuel fs dst_dir true pre src
      = Some (joinpath dst_dir (target_name pre src)).
Proof.
  split; [|split; [|split]].
  - unfold target_name, target_stem. destruct p as [|c p]; [done|].
    simpl. by rewrite !app_assoc_str.
  - done.
  - apply stem_suffix.
  - intros fuel fs dst_dir pre. unfold resolve_out, target_name.
    by rewrite andb_false_r.
Qed.

Lemma target_name_spec_witness :
  "thumb" ≠ ""
  ∧ target_name (Some "thumb") ["/"; "pics"; "a.png"] = "thumb_a.avif"
  ∧ target_name None ["/"; "pics"; "a.png"] = "a.avif".
Proof.
  split; [done|].
  destruct (target_name_spec ["/"; "pics"; "a.png"] "thumb") as (H1 & H2 & _);
    [done|].
  split; [exact H1|exact H2].
Defined.

(** ** The prefix *)

Lemma lstrip_all_space (s : string) : all_space s = true → Str.lstrip s = "".
Proof.
  induction s as [|c s IH]; [done|]. simpl.
  intros [Hc Hs]%andb_true_iff. rewrite Hc. by apply IH.
Qed.

Lemma strip_truthy (raw : string) :
  Str.truthy (Str.strip raw) = negb (all_space raw).
Proof.
  unfold Str.strip. induction raw as [|c raw IH]; [done|]. simpl.
  destruct (Char.isspace c) eqn:Hc; [done|]. simpl. rewrite Hc.
  by destruct (Str.rstrip raw).
Qed.

(** ** The per-item conversion *)

Section Conversion.

Context (pil_open : FS → Path → outcome Image).
Context (pil_save :
  FS → Image → Path → gmap string pvalue → outcome unit * FS).

Abbreviation convert_one' := (convert_one pil_open pil_save).
Abbreviation encoded' := (encoded pil_save).

Lemma convert_one_raise (fuel : nat) (w : World) (src dst_dir : Path)
    (ov : bool) (q s : Z) (l k : bool) (pre : option string) (e : string) :
  pil_open (fs w) src = Raise e →
  convert_one' fuel w src dst_dir ov q s l k pre
  = Some (Some ("Skip " +:+ name src +:+ ": " +:+ e), w).
Proof. intros H. unfold convert_one. by rewrite H. Qed.

Lemma convert_one_ok (fuel : nat) (w : World) (src dst_dir : Path)
    (ov : bool) (q s : Z) (l k : bool) (pre : option string)
    (im : Image) (out : Path) :
  pil_open (fs w) src = Ok im →
  resolve_out fuel (fs w) dst_dir ov pre src = Some out →
  convert_one' fuel w src dst_dir ov q s l k pre
  = Some (encoded' w src im out q s l k).
Proof.
  intros H Hout. unfold convert_one, encoded, save_avif, im_save.
  rewrite H, Hout.
  destruct (pil_save _ _ _ _) as [[u|e] fs']; by simpl.
Qed.

Lemma convert_one_total (fuel : nat) (w : World) (src dst_dir : Path)
    (ov : bool) (q s : Z) (l k : bool) (pre : option string) :
  (size (fs w) < fuel)%nat →
  is_Some (convert_one' fuel w src dst_dir ov q s l k pre).
Proof.
  intros Hfuel. destruct (pil_open (fs w) src) as [im|e] eqn:E.
  - destruct (resolve_out_total fuel (fs w) dst_dir ov pre src Hfuel)
      as [out Hout].
    rewrite (convert_one_ok _ _ _ _ _ _ _ _ _ _ _ _ E Hout). by eexists.
  - rewrite (convert_one_raise _ _ _ _ _ _ _ _ _ _ _ E). by eexists.
Qed.

Lemma convert_one_mono (fuel fuel' : nat) (w : World) (src dst_dir : Path)
    (ov : bool) (q s : Z) (l k : bool) (pre : option string)
    (r : option string * World) :
  convert_one' fuel w src dst_dir ov q s l k pre = Some r →
  (fuel ≤ fuel')%nat →
  convert_one' fuel' w src dst_dir ov q s l k pre = Some r.
Proof.
  intros H Hle. unfold convert_one in *.
  destruct (pil_open (fs w) src) as [im|e]; [|done].
  destruct (resolve_out fuel _ _ _ _ _) as [out|] eqn:E; [|done].
  by rewrite (resolve_out_mono _ _ _ _ _ _ _ _ E Hle).
Qed.


(** Where no query fails: when [overwrite] is off and the target is
    taken, the conversion writes to the candidate [stem_k.avif] with the
    least [k] from 2 on that is free; with [overwrite] off it never writes
    where there is an entry; with [overwrite] on it writes to the target
    itself. *)
Theorem convert_one_output (fuel : nat) (w : World) (src dst_dir : Path)
    (ov : bool) (q s : Z) (l k : bool) (pre : option string) (im : Image)
    (Hfuel : (size (fs w) < fuel)%nat)
    (Hopen : pil_open (fs w) src = Ok im) :
  let target := joinpath dst_dir (target_name pre src) in
  let stm := target_stem pre src in
  ∃ out,
    convert_one' fuel w src dst_dir ov q s l k pre
    = Some (encoded' w src im out q s l k)
    ∧ if ov then out = target
      else fs w !! out = None
           ∧ match fs w !! target with
             | None => out = target
             | Some _ =>
                 ∃ n, 2 <= n ∧ out = candidate dst_dir stm n
                      ∧ ∀ j, 2 <= j < n →
                             is_Some (fs w !! candidate dst_dir stm j)
             end.
Proof.
  intros target stm.
  destruct (resolve_out_total fuel (fs w) dst_dir ov pre src Hfuel)
    as [out Hout].
  exists out. split; [by apply convert_one_ok|].
  unfold resolve_out in Hout. fold stm in Hout.
  change (joinpath dst_dir (stm +:+ ".avif")) with target in Hout.
  destruct ov; simpl in Hout.
  { rewrite andb_false_r in Hout. by injection Hout as <-. }
  rewrite andb_true_r in Hout.
  destruct (exists_ (fs w) target) eqn:E.
  - apply exists_true in E as [kd Hkd]. rewrite Hkd.
    apply probe_Some in Hout as (n & Hn & -> & Hfree & Hbusy). eauto.
  - apply exists_false in E. rewrite E. by injection Hout as <-.
Qed.



(** C10. A prefix that is empty or made of spaces only is no prefix: it
    becomes [None] before the conversion, an empty prefix handed to
    [convert_one] is treated as [None], and in both cases the target is
    [stem.avif], with no underscore in front. *)
Theorem prefix_blank (raw : string) (Hws : all_space raw = true) :
  normalize_prefix raw = None
  ∧ (∀ src, target_name (normalize_prefix raw) src = stem src +:+ ".avif")
  ∧ (∀ src, target_name (Some "") src = stem src +:+ ".avif")
  ∧ ∀ fuel w src dst_dir ov q s l k,
      convert_one' fuel w src dst_dir ov q s l k (Some "")
      = convert_one' fuel w src dst_dir ov q s l k None
      ∧ convert_one' fuel w src dst_dir ov q s l k (normalize_prefix raw)
        = convert_one' fuel w src dst_dir ov q s l k None.
Proof.
  assert (normalize_prefix raw = None) as E.
  { unfold normalize_prefix. by rewrite strip_truthy, Hws. }
  rewrite E. by repeat split.
Qed.

(** A prefix that is kept has no space at either end and is not empty. *)
Lemma normalize_prefix_Some (raw p : string) :
  normalize_prefix raw = Some p → p = Str.strip raw ∧ p ≠ "".
Proof.
  unfold normalize_prefix. destruct (Str.strip raw) eqn:E; [done|].
  intros [= <-]. done.
Qed.

End Conversion.

(** The statements above on the sample run. *)

Lemma convert_one_output_witness :
  ∃ out,
    convert_one Sample.decoder Sample.encoder 20 Sample.start
      ["/"; "pics"; "a.png"] Sample.out_dir false 80 6 false true None
    = Some (encoded Sample.encoder Sample.start ["/"; "pics"; "a.png"]
              {| mode := "LA";
                 info := {[ "exif" := "Exif-bytes"; "icc_profile" := "sRGB" ]};
                 pixels := "a.png" |}
              out 80 6 false true)
    ∧ Sample.files !! out = None.
Proof.
  edestruct (convert_one_output Sample.decoder Sample.encoder 20 Sample.start
    ["/"; "pics"; "a.png"] Sample.out_dir false 80 6 false true None)
    as (out & H1 & H2 & _).
  - vm_compute. lia.
  - reflexivity.
  - exists out. split; [exact H1|exact H2].
Defined.

Example convert_one_third_name :
  resolve_out 20 Sample.files Sample.out_dir false None ["/"; "pics"; "a.png"]
  = Some ["/"; "out"; "a_3.avif"].
Proof. by vm_compute. Qed.



Lemma prefix_blank_witness :
  all_space (String "009" "  ") = true
  ∧ normalize_prefix (String "009" "  ") = None.
Proof.
  split; [reflexivity|].
  exact (proj1 (prefix_blank Sample.decoder Sample.encoder
                  (String "009" "  ") eq_refl)).
Defined.


(** ** The batch *)

Lemma ui_events_app (l1 l2 : list event) :
  ui_events (l1 ++ l2) = ui_events l1 ++ ui_events l2.
Proof. apply filter_app. Qed.

Lemma returns_ui (l : list event) : returns (ui_events l) = returns l.
Proof.
  unfold returns, ui_events. induction l as [|ev l IH]; [done|].
  rewrite filter_cons.
  destruct ev; simpl; try case_decide; simpl; try done;
    first [by rewrite IH | by f_equal].
Qed.

Lemma progresses_ui (l : list event) : progresses (ui_events l) = progresses l.
Proof.
  unfold progresses, ui_events. induction l as [|ev l IH]; [done|].
  rewrite filter_cons.
  destruct ev; simpl; try case_decide; simpl; try done;
    first [by rewrite IH | by f_equal].
Qed.

Lemma statuses_ui (l : list event) : statuses (ui_events l) = statuses l.
Proof.
  unfold statuses, ui_events. induction l as [|ev l IH]; [done|].
  rewrite filter_cons.
  destruct ev; simpl; try case_decide; simpl; try done;
    first [by rewrite IH | by f_equal].
Qed.

Lemma returns_notes (n i : Z) (rs : list (Path * option string)) :
  returns (notes n i rs) = rs.
Proof.
  revert i. induction rs as [|[item msg] rs IH]; intros i; [done|].
  simpl. unfold returns in *. simpl. by rewrite IH.
Qed.

Lemma progresses_notes (n i : Z) (rs : list (Path * option string)) :
  progresses (notes n i rs) = seqZ i (Z.of_nat (List.length rs)).
Proof.
  revert i. induction rs as [|r rs IH]; intros i; [done|].
  rewrite (seqZ_cons i) by (simpl; lia).
  simpl. unfold progresses in *. simpl. rewrite IH.
  do 2 f_equal; lia.
Qed.

Lemma statuses_notes (n i : Z) (rs : list (Path * option string)) :
  statuses (notes n i rs)
  = progress_text n <$> seqZ i (Z.of_nat (List.length rs)).
Proof.
  revert i. induction rs as [|r rs IH]; intros i; [done|].
  rewrite (seqZ_cons i) by (simpl; lia).
  simpl. unfold statuses in *. simpl. rewrite IH.
  do 3 f_equal; lia.
Qed.

Lemma failures_successes (rs : list (Path * option string)) :
  (successes rs + failures rs)%nat = List.length rs.
Proof.
  unfold successes, failures. induction rs as [|r rs IH]; [done|].
  rewrite !filter_cons. destruct (failed r); repeat case_decide;
    try done; simpl; lia.
Qed.

Section Batch.

Context (pil_open : FS → Path → outcome Image).
Context (pil_save :
  FS → Image → Path → gmap string pvalue → outcome unit * FS).

Abbreviation convert_one' := (convert_one pil_open pil_save).
Abbreviation worker_loop' := (worker_loop pil_open pil_save).
Abbreviation worker' := (worker pil_open pil_save).
Abbreviation caught' := (caught pil_open pil_save).

Lemma convert_one_caught (fuel : nat) (w : World) (item : Path)
    (o : Options) (msg : option string) (w' : World) :
  convert_one' fuel w item (dst o) (overwrite o) (quality o) (speed o)
    (lossless o) (keep_exif o) (prefix o) = Some (msg, w') →
  caught' w item o msg w'.
Proof.
  intros H. unfold caught.
  destruct (pil_open (fs w) item) as [im|e] eqn:E.
  - destruct (resolve_out fuel (fs w) (dst o) (overwrite o) (prefix o) item)
      as [out|] eqn:Eo.
    + rewrite (convert_one_ok _ _ _ _ _ _ _ _ _ _ _ _ _ _ E Eo) in H.
      exists out. congruence.
    + unfold convert_one in H. by rewrite E, Eo in H.
  - rewrite (convert_one_raise _ _ _ _ _ _ _ _ _ _ _ _ _ E) in H.
    by simplify_eq.
Qed.

Lemma caught_log (w : World) (item : Path) (o : Options)
    (msg : option string) (w' : World) :
  caught' w item o msg w' →
  ∃ es, log w' = log w ++ es ∧ ui_events es = []
        ∧ failed (item, msg) = truthy msg.
Proof.
  unfold caught. destruct (pil_open (fs w) item) as [im|e].
  - intros [out H]. unfold encoded in H. injection H as -> ->.
    eexists. split; [done|]. split; [done|].
    unfold failed. simpl. by destruct (pil_save _ _ _ _).1.
  - intros [-> ->]. exists []. by rewrite app_nil_r.
Qed.

(** What a run of the loop leaves in the log. *)
Lemma worker_loop_log (fuel : nat) (o : Options) (n : Z) (rest : list Path)
    (i errors : Z) (w : World) (errors' : Z) (w' : World) :
  worker_loop' fuel o n rest i errors w = Some (errors', w') →
  ∃ rs evs,
    rs.*1 = rest
    ∧ log w' = log w ++ evs
    ∧ ui_events evs = notes n i rs
    ∧ errors' = errors + Z.of_nat (failures rs)
    ∧ Forall (λ r, ∃ w1 w2, caught' w1 r.1 o r.2 w2) rs.
Proof.
  revert i errors w. induction rest as [|item rest IH]; intros i errors w H.
  { simpl in H. injection H as <- <-. exists [], [].
    rewrite app_nil_r. do 3 (split; [done|]).
    split; [unfold failures; simpl; lia|constructor]. }
  simpl in H.
  destruct (convert_one' fuel w item _ _ _ _ _ _ _) as [[msg w1]|] eqn:E;
    [|done].
  apply convert_one_caught in E.
  destruct (caught_log _ _ _ _ _ E) as (es & Hes & Hui & Hf).
  apply IH in H as (rs & evs & Hrs & Hlog & Hnotes & Herr & Hall).
  exists ((item, msg) :: rs), (es ++ item_events n i (item, msg) ++ evs).
  split; [by rewrite fmap_cons, Hrs|]. split.
  { rewrite Hlog. simpl. rewrite Hes. by rewrite <-!app_assoc. }
  split.
  { rewrite !ui_events_app, Hui, Hnotes. done. }
  split.
  { rewrite Herr. unfold failures. rewrite filter_cons, Hf.
    destruct (truthy msg); case_decide; try done; simpl; lia. }
  constructor; [by exists w, w1|done].
Qed.

(** The loop ends on every list of items, given fuel enough. *)
Lemma worker_loop_total (o : Options) (n : Z) (rest : list Path)
    (i errors : Z) (w : World) :
  ∃ fuel0, ∀ fuel, (fuel0 ≤ fuel)%nat →
    is_Some (worker_loop' fuel o n rest i errors w).
Proof.
  revert i errors w. induction rest as [|item rest IH]; intros i errors w.
  { exists O. intros fuel _. by eexists. }
  set (fuel1 := S (size (fs w))).
  destruct (convert_one_total pil_open pil_save fuel1 w item (dst o)
    (overwrite o) (quality o) (speed o) (lossless o) (keep_exif o) (prefix o))
    as [[msg w1] H1]; [unfold fuel1; lia|].
  destruct (IH (i + 1) (if truthy msg then errors + 1 else errors)
    (emit (EvStatus (pretty i +:+ "/" +:+ pretty n))
       (emit (EvProgress i) (emit (EvReturn item msg) w1))))
    as [fuel2 H2].
  exists (fuel1 `max` fuel2)%nat. intros fuel Hfuel. simpl.
  rewrite (convert_one_mono _ _ fuel1 fuel _ _ _ _ _ _ _ _ _ _ H1) by lia.
  apply H2. lia.
Qed.

(** A whole run of [worker]. *)
Lemma worker_run (o : Options) (items : list Path) (w : World) :
  let n := Z.of_nat (List.length items) in
  ∃ fuel0, ∀ fuel, (fuel0 ≤ fuel)%nat →
    ∃ w' rs evs,
      worker' fuel o items w = Some w'
      ∧ rs.*1 = items
      ∧ log w' = log w ++ evs
      ∧ ui_events evs
        = notes n 1 rs
          ++ [EvStatus (done_text (Z.of_nat (successes rs))
                          (Z.of_nat (failures rs)) (dst o));
              EvButton "normal"]
      ∧ Forall (λ r, ∃ w1 w2, caught' w1 r.1 o r.2 w2) rs.
Proof.
  intros n. destruct (worker_loop_total o n items 1 0 w) as [fuel0 Htot].
  exists fuel0. intros fuel Hfuel.
  destruct (Htot fuel Hfuel) as [[errors w1] Hloop].
  destruct (worker_loop_log _ _ _ _ _ _ _ _ _ Hloop)
    as (rs & evs & Hrs & Hlog & Hnotes & Herr & Hall).
  assert (n - errors = Z.of_nat (successes rs)) as Hsucc.
  { pose proof (failures_successes rs) as H.
    rewrite <-(length_fmap fst), Hrs in H. unfold n. lia. }
  unfold worker. fold n. rewrite Hloop.
  eexists _, rs, (evs ++ [_; _]). split; [done|]. split; [done|].
  split; [simpl; by rewrite Hlog, <-!app_assoc|].
  split; [|done].
  rewrite ui_events_app, Hnotes, Hsucc, Herr.
  by replace (0 + Z.of_nat (failures rs)) with (Z.of_nat (failures rs)) by lia.
Qed.

(** Where no query fails, every run of [worker] ends, whatever the codec
    does: each item gives one result, in the order of the list; an
    exception of the decoder or of the encoder is turned by [convert_one]
    into the message [Skip name: error] or [Failed name: error]; the last
    status line counts the items that gave no message and those that gave
    one, and the two counts add up to the number of items. *)
Theorem worker_completes (o : Options) (items : list Path) (w : World) :
  ∃ fuel0, ∀ fuel, (fuel0 ≤ fuel)%nat →
    ∃ w' rs evs,
      worker' fuel o items w = Some w'
      ∧ log w' = log w ++ evs
      ∧ returns evs = rs
      ∧ rs.*1 = items
      ∧ Forall (λ r, ∃ w1 w2, caught' w1 r.1 o r.2 w2) rs
      ∧ last (statuses evs)
        = Some (done_text (Z.of_nat (successes rs))
                  (Z.of_nat (failures rs)) (dst o))
      ∧ (successes rs + failures rs)%nat = List.length items.
Proof.
  destruct (worker_run o items w) as [fuel0 Hrun].
  exists fuel0. intros fuel Hfuel.
  destruct (Hrun fuel Hfuel) as (w' & rs & evs & Hw & Hrs & Hlog & Hui & Hall).
  exists w', rs, evs. do 2 (split; [done|]).
  split.
  { rewrite <-returns_ui, Hui. unfold returns. rewrite omap_app.
    fold (returns (notes (Z.of_nat (List.length items)) 1 rs)).
    rewrite returns_notes. simpl. by rewrite app_nil_r. }
  do 2 (split; [done|]). split.
  - rewrite <-statuses_ui, Hui. unfold statuses. rewrite omap_app. simpl.
    by rewrite last_snoc.
  - by rewrite failures_successes, <-Hrs, length_fmap.
Qed.

(** Where no query fails, over [n] items [worker] schedules [n] updates
    of the progress bar, with the values [1] to [n], and sets [n] status
    texts [i/n], the [i]-th of each right after the [i]-th item has
    returned, whatever it returned; the closing status line and the button
    come last. *)
Theorem worker_progress (o : Options) (items : list Path) (w : World) :
  let n := Z.of_nat (List.length items) in
  ∃ fuel0, ∀ fuel, (fuel0 ≤ fuel)%nat →
    ∃ w' rs evs,
      worker' fuel o items w = Some w'
      ∧ log w' = log w ++ evs
      ∧ rs.*1 = items
      ∧ ui_events evs
        = notes n 1 rs
          ++ [EvStatus (done_text (Z.of_nat (successes rs))
                          (Z.of_nat (failures rs)) (dst o));
              EvButton "normal"]
      ∧ progresses evs = seqZ 1 n
      ∧ statuses evs
        = (progress_text n <$> seqZ 1 n)
          ++ [done_text (Z.of_nat (successes rs))
                (Z.of_nat (failures rs)) (dst o)]
      ∧ ∀ i : nat, (i < List.length items)%nat →
          progresses evs !! i = Some (Z.of_nat i + 1)
          ∧ statuses evs !! i = Some (progress_text n (Z.of_nat i + 1)).
Proof.
  intros n. destruct (worker_run o items w) as [fuel0 Hrun].
  exists fuel0. intros fuel Hfuel.
  destruct (Hrun fuel Hfuel) as (w' & rs & evs & Hw & Hrs & Hlog & Hui & Hall).
  fold n in Hui.
  assert (Z.of_nat (List.length rs) = n) as Hlen.
  { unfold n. by rewrite <-Hrs, length_fmap. }
  assert (progresses evs = seqZ 1 n) as Hp.
  { rewrite <-progresses_ui, Hui. unfold progresses. rewrite omap_app.
    fold (progresses (notes n 1 rs)).
    rewrite progresses_notes, Hlen. simpl. by rewrite app_nil_r. }
  assert (statuses evs = (progress_text n <$> seqZ 1 n) ++
    [done_text (Z.of_nat (successes rs)) (Z.of_nat (failures rs)) (dst o)])
    as Hs.
  { rewrite <-statuses_ui, Hui. unfold statuses. rewrite omap_app.
    fold (statuses (notes n 1 rs)). by rewrite statuses_notes, Hlen. }
  exists w', rs, evs. do 6 (split; [done|]).
  intros i Hi. rewrite Hp, Hs. split.
  - rewrite lookup_seqZ_lt by (unfold n; lia). f_equal. lia.
  - rewrite lookup_app_l by (rewrite length_fmap, length_seqZ; unfold n; lia).
    rewrite list_lookup_fmap, lookup_seqZ_lt by (unfold n; lia).
    simpl. do 2 f_equal. lia.
Qed.

End Batch.

(** The sample run: three results for three items, one failure of the
    decoder caught, and the status texts in order. *)
Example sample_run_statuses :
  (λ w, (returns (log w), progresses (log w), statuses (log w)))
    <$> worker Sample.decoder Sample.encoder 20 Sample.options
          (collect_images Sample.files Sample.pics false) Sample.start
  = Some
      ( [ (["/"; "pics"; "a.png"], None);
          (["/"; "pics"; "b.JPG"],
           Some "Skip b.JPG: cannot identify image file");
          (["/"; "pics"; "sub-1.png"], None) ],
        [1; 2; 3],
        [ "1/3"; "2/3"; "3/3";
          "Done. 2 succeeded, 1 failed. Output: /out" ] ).
Proof. by vm_compute. Qed.

Example sample_run_recursive :
  (λ w, returns (log w))
    <$> worker Sample.decoder Sample.encoder 20 Sample.options
          (collect_images Sample.files Sample.pics true) Sample.start
  = Some
      [ (["/"; "pics"; "a.png"], None);
        (["/"; "pics"; "b.JPG"],
         Some "Skip b.JPG: cannot identify image file");
        (["/"; "pics"; "sub"; "c.gif"], Some "Failed c.gif: disk full");
        (["/"; "pics"; "sub-1.png"], None) ].
Proof. by vm_compute. Qed.

(** * Further properties *)

(** ** Names, stems and suffixes *)

Lemma length_take_str (i : nat) (s : string) :
  (i ≤ String.length s)%nat → String.length (Str.take i s) = i.
Proof.
  revert i. induction s as [|c s IH]; intros [|i] H; simpl in *; try lia.
  rewrite IH; lia.
Qed.

Lemma drop_app_str (a b : string) : Str.drop (String.length a) (a +:+ b) = b.
Proof. induction a as [|c a IH]; [by destruct b|]. by rewrite app_cons_str. Qed.

Lemma take_app_str (a b : string) : Str.take (String.length a) (a +:+ b) = a.
Proof.
  induction a as [|c a IH]; [by destruct b|].
  rewrite app_cons_str. simpl. by rewrite IH.
Qed.

Lemma rfind_dot_None (s : string) :
  Str.rfind_dot s = None ↔ dot_free s = true.
Proof.
  induction s as [|c s IH]; simpl; [done|].
  destruct (Str.rfind_dot s) as [i|].
  - split; [done|]. intros [_ H]%andb_true_iff. by apply IH in H.
  - rewrite (proj1 IH eq_refl), andb_true_r.
    case_decide as Hc.
    + by rewrite bool_decide_eq_true_2.
    + by rewrite bool_decide_eq_false_2.
Qed.

Lemma dot_free_app (a b : string) :
  dot_free (a +:+ b) = dot_free a && dot_free b.
Proof.
  induction a as [|x a IH]; [done|].
  rewrite app_cons_str. simpl. rewrite IH. by rewrite andb_assoc.
Qed.

(** The last dot splits a string into what is before it and a dot-free
    rest. *)
Lemma rfind_dot_Some (s : string) (i : nat) :
  Str.rfind_dot s = Some i ↔
  ∃ a t, s = a +:+ "." +:+ t ∧ String.length a = i ∧ dot_free t = true.
Proof.
  revert i. induction s as [|c s IH]; intros i; simpl.
  { split; [done|]. intros (a & t & H & _). by destruct a. }
  destruct (Str.rfind_dot s) as [j|] eqn:E.
  - split.
    + intros [= <-]. destruct (proj1 (IH j) eq_refl) as (a & t & -> & <- & Ht).
      by exists (String c a), t.
    + intros (a & t & H & <- & Ht). destruct a as [|x a].
      * rewrite app_nil_l_str, app_cons_str, app_nil_l_str in H.
        injection H as -> ->. apply rfind_dot_None in Ht. congruence.
      * rewrite app_cons_str in H. injection H as -> ->. simpl. f_equal.
        assert (Some j = Some (String.length a)) as [= ->]; [|done].
        apply IH. by exists a, t.
  - apply rfind_dot_None in E. split.
    + case_decide as Hc; [|done]. intros [= <-]. subst c. by exists "", s.
    + intros (a & t & H & <- & Ht). destruct a as [|x a].
      * rewrite app_nil_l_str, app_cons_str, app_nil_l_str in H.
        injection H as -> _. by rewrite decide_True.
      * rewrite app_cons_str in H. injection H as -> ->.
        rewrite dot_free_app, app_cons_str in E. simpl in E.
        by rewrite andb_false_r in E.
Qed.

Lemma str_nonempty_length (s : string) : s ≠ "" ↔ (0 < String.length s)%nat.
Proof. destruct s; simpl; split; (done || lia). Qed.

(** The suffix and the stem of a name that ends with a dot and a dot-free
    rest. *)
Lemma suffix_stem_of_name (p : Path) (a t : string) :
  name p = a +:+ "." +:+ t → dot_free t = true →
  if bool_decide (a ≠ "" ∧ t ≠ "")
  then suffix p = "." +:+ t ∧ stem p = a
  else suffix p = "" ∧ stem p = name p.
Proof.
  intros Hn Ht. unfold suffix, stem.
  assert (Str.rfind_dot (name p) = Some (String.length a)) as ->.
  { apply rfind_dot_Some. by exists a, t. }
  rewrite Hn, !app_length_str. simpl.
  rewrite drop_app_str, take_app_str.
  case_bool_decide as H1; case_bool_decide as H2; try done.
  - destruct H2. rewrite !str_nonempty_length in H1. lia.
  - destruct H1. rewrite !str_nonempty_length. lia.
Qed.

(** A non-empty suffix is a dot and a dot-free rest, after a non-empty
    stem. *)
Lemma suffix_nonempty (p : Path) :
  suffix p ≠ "" →
  ∃ t, name p = stem p +:+ "." +:+ t ∧ stem p ≠ "" ∧ t ≠ ""
       ∧ dot_free t = true ∧ suffix p = "." +:+ t.
Proof.
  intros Hs.
  destruct (Str.rfind_dot (name p)) as [i|] eqn:E;
    [|by unfold suffix in Hs; rewrite E in Hs].
  apply rfind_dot_Some in E as (a & t & Hn & <- & Ht).
  pose proof (suffix_stem_of_name p a t Hn Ht) as H.
  case_bool_decide as Hat; destruct H as [H1 H2]; [|done].
  exists t. rewrite H2. by destruct Hat.
Qed.

(** ** More on discovery *)

Lemma lower_nil (s : string) : Str.lower s = "" → s = "".
Proof. by destruct s. Qed.

Lemma recognized_suffix (p : Path) : recognized p = true → suffix p ≠ "".
Proof.
  unfold recognized. intros H%bool_decide_eq_true Hs. rewrite Hs in H.
  simpl in H. by repeat (apply elem_of_cons in H as [H|H]; [done|]);
    apply elem_of_nil in H.
Qed.

Lemma not_recognized_avif (p : Path) (a : string) :
  name p = a +:+ ".avif" → recognized p = false.
Proof.
  intros Hn.
  pose proof (suffix_stem_of_name p a "avif" Hn eq_refl) as H.
  unfold recognized. apply bool_decide_eq_false.
  case_bool_decide; destruct H as [-> _]; intros H; simpl in H;
    by repeat (apply elem_of_cons in H as [H|H]; [done|]);
      apply elem_of_nil in H.
Qed.

Lemma elem_of_collect_images (fs : FS) (src : Path) (recursive : bool)
    (p : Path) :
  p ∈ collect_images fs src recursive →
  fs !! p = Some KFile ∧ recognized p = true.
Proof.
  unfold collect_images.
  destruct (is_file fs src) eqn:Ef.
  - destruct (recognized src) eqn:Er; [|by intros ?%elem_of_nil].
    intros ->%list_elem_of_singleton. split; [|done].
    by apply bool_decide_eq_true in Ef.
  - destruct (is_dir fs src); simpl; [|by intros ?%elem_of_nil].
    rewrite sorted_perm, list_elem_of_filter, andb_True.
    intros [[Hf Hr] _]. split; [|by apply Is_true_true].
    apply Is_true_true in Hf. by apply bool_decide_eq_true in Hf.
Qed.


(** The name of a path [d / (a + ".avif")] ends with [.avif]. *)
Lemma joinpath_avif_name (d : Path) (a : string) :
  ∃ l, name (joinpath d (a +:+ ".avif")) = l +:+ ".avif".
Proof.
  destruct (joinpath_last d a ".avif") as (l & Hl & _); [done|simpl; lia|].
  exists l. unfold name. rewrite Hl.
  assert (is_root (l +:+ ".avif") = false) as ->; [|done].
  unfold is_root. apply orb_false_iff.
  split; apply bool_decide_eq_false; intros E;
    apply (f_equal String.length) in E; rewrite app_length_str in E;
    simpl in E; lia.
Qed.

Lemma resolve_out_name (fuel : nat) (fs : FS) (dst_dir : Path) (ov : bool)
    (pre : option string) (src out : Path) :
  resolve_out fuel fs dst_dir ov pre src = Some out →
  ∃ l, name out = l +:+ ".avif".
Proof.
  unfold resolve_out. case_match.
  - intros (n & _ & -> & _)%probe_Some. unfold candidate.
    replace (target_stem pre src +:+ "_" +:+ pretty n +:+ ".avif")
      with ((target_stem pre src +:+ "_" +:+ pretty n) +:+ ".avif")
      by (by rewrite !app_assoc_str).
    apply joinpath_avif_name.
  - intros [= <-]. apply joinpath_avif_name.
Qed.

(** X1. Whatever the source, a path that discovery returns is a regular
    file whose name is a non-empty stem, a dot and a non-empty dot-free
    extension that is recognised once lower-cased. A file named [.png] or
    [photo.png.] is therefore never a candidate, and the target of a
    candidate is never the bare [.avif]. *)
Theorem collect_images_named (fs : FS) (src : Path) (recursive : bool)
    (p : Path) (Hin : p ∈ collect_images fs src recursive) :
  fs !! p = Some KFile
  ∧ ∃ t, name p = stem p +:+ "." +:+ t
         ∧ stem p ≠ "" ∧ t ≠ "" ∧ dot_free t = true
         ∧ Str.lower ("." +:+ t) ∈ COMMON_EXTS
         ∧ target_name None p ≠ ".avif".
Proof.
  apply elem_of_collect_images in Hin as [Hf Hr]. split; [done|].
  destruct (suffix_nonempty p (recognized_suffix p Hr))
    as (t & Hn & Hs & Ht & Hd & Hsfx).
  exists t. do 4 (split; [done|]). split.
  - rewrite <-Hsfx. by apply bool_decide_eq_true in Hr.
  - unfold target_name, target_stem. intros E.
    apply (f_equal String.length) in E. rewrite app_length_str in E.
    apply str_nonempty_length in Hs. simpl in E. lia.
Qed.

Lemma collect_images_named_witness :
  ["/"; "pics"; "b.JPG"] ∈ collect_images Sample.files Sample.pics false
  ∧ Sample.files !! ["/"; "pics"; "b.JPG"] = Some KFile.
Proof.
  assert (["/"; "pics"; "b.JPG"]
          ∈ collect_images Sample.files Sample.pics false) as H.
  { vm_compute. apply elem_of_cons. right. apply elem_of_cons. by left. }
  split; [exact H|].
  exact (proj1 (collect_images_named Sample.files Sample.pics false _ H)).
Defined.

Example dot_png_not_recognized :
  recognized ["/"; "pics"; ".png"] = false
  ∧ recognized ["/"; "pics"; "photo.png."] = false
  ∧ recognized ["/"; "pics"; "photo.tar.PNG"] = true.
Proof. by vm_compute. Qed.

(** X2. The path a conversion writes to has a name that ends with [.avif],
    and no discovery, on any files, from any source, ever returns it:
    outputs are never taken as inputs. *)
Theorem outputs_not_candidates (fuel : nat) (fs : FS) (dst_dir : Path)
    (ov : bool) (pre : option string) (src out : Path)
    (Hout : resolve_out fuel fs dst_dir ov pre src = Some out) :
  (∃ l, name out = l +:+ ".avif")
  ∧ ∀ fs' src' recursive, out ∉ collect_images fs' src' recursive.
Proof.
  destruct (resolve_out_name _ _ _ _ _ _ _ Hout) as [l Hl].
  split; [by exists l|].
  intros fs' src' recursive [_ Hr]%elem_of_collect_images.
  by rewrite (not_recognized_avif out l Hl) in Hr.
Qed.

Lemma outputs_not_candidates_witness :
  resolve_out 20 Sample.files Sample.out_dir false None ["/"; "pics"; "a.png"]
  = Some ["/"; "out"; "a_3.avif"]
  ∧ ["/"; "out"; "a_3.avif"]
    ∉ collect_images (<[ ["/"; "out"; "a_3.avif"] := KFile ]> Sample.files)
        Sample.out_dir true.
Proof.
  assert (resolve_out 20 Sample.files Sample.out_dir false None
            ["/"; "pics"; "a.png"] = Some ["/"; "out"; "a_3.avif"]) as H
    by (by vm_compute).
  split; [exact H|].
  apply (outputs_not_candidates _ _ _ _ _ _ _ H).
Defined.



(** ** Where the output goes *)

Lemma slash_free_take (i : nat) (s : string) :
  slash_free s = true → slash_free (Str.take i s) = true.
Proof.
  revert i. induction s as [|c s IH]; intros [|i] H; try done.
  simpl in *. apply andb_true_iff in H as [-> H]. by rewrite IH.
Qed.

Lemma slash_free_stem (p : Path) :
  slash_free (name p) = true → slash_free (stem p) = true.
Proof.
  intros H. unfold stem. destruct (Str.rfind_dot (name p)); [|done].
  case_bool_decide; [by apply slash_free_take|done].
Qed.

Lemma slash_free_target_stem (pre : option string) (src : Path) :
  slash_free (default "" pre) = true → slash_free (name src) = true →
  slash_free (target_stem pre src) = true.
Proof.
  intros Hp Hs%slash_free_stem. unfold target_stem.
  destruct pre as [p|]; [|done]. destruct (Str.truthy p); [|done].
  simpl in Hp. by rewrite !slash_free_app, Hp, Hs.
Qed.

(** A string without slash, other than the empty one and the dot, is a
    path of one part. *)
Lemma parse_path_single (s : string) :
  slash_free s = true → s ≠ "" → s ≠ "." → parse_path s = [s].
Proof.
  intros Hs Hne Hdot. unfold parse_path.
  assert (Str.leading_slashes s = O) as ->.
  { destruct s as [|c s]; [done|]. simpl in *.
    apply andb_true_iff in Hs as [Hc _].
    apply negb_true_iff, bool_decide_eq_false in Hc. by rewrite decide_False. }
  destruct (split_slash_snoc "" s Hs) as (ini & l & Hini & Hsplit).
  rewrite app_nil_l_str in Hsplit. rewrite Hsplit.
  destruct ini as [|x [|y ini]]; simplify_eq/=.
  rewrite app_nil_l_str. by rewrite filter_cons_True, filter_nil.
Qed.

Lemma joinpath_single (d : Path) (s : string) :
  slash_free s = true → (2 <= String.length s)%nat → joinpath d s = d ++ [s].
Proof.
  intros Hs Hlen. unfold joinpath. rewrite parse_path_single; try done.
  - simpl. unfold is_root.
    destruct (bool_decide_reflect (s = "/")) as [->|]; [done|].
    by destruct (bool_decide_reflect (s = "//")) as [->|].
  - intros ->. simpl in Hlen. lia.
  - intros ->. simpl in Hlen. lia.
Qed.

(** X4. When neither the prefix nor the name of the source has a slash,
    the conversion writes directly in the destination folder: the output
    is [dst_dir] followed by one part, which is the target name or the
    target stem followed by [_k.avif] for some [k] from 2 on. *)
Theorem resolve_out_in_dst (fuel : nat) (fs : FS) (dst_dir : Path)
    (ov : bool) (pre : option string) (src out : Path)
    (Hpre : slash_free (default "" pre) = true)
    (Hsrc : slash_free (name src) = true)
    (Hout : resolve_out fuel fs dst_dir ov pre src = Some out) :
  ∃ nm, out = dst_dir ++ [nm]
        ∧ slash_free nm = true
        ∧ (nm = target_name pre src
           ∨ ∃ n, 2 <= n
                  ∧ nm = target_stem pre src +:+ "_" +:+ pretty n +:+ ".avif").
Proof.
  pose proof (slash_free_target_stem pre src Hpre Hsrc) as Hstm.
  unfold resolve_out in Hout. case_match.
  - apply probe_Some in Hout as (n & Hn & -> & _).
    pose proof (pretty_Z_slash_free n ltac:(lia)) as Hp.
    assert (slash_free (target_stem pre src +:+ "_" +:+ pretty n +:+ ".avif")
            = true) as Hnm by (by rewrite !slash_free_app, Hstm, Hp).
    exists (target_stem pre src +:+ "_" +:+ pretty n +:+ ".avif").
    split; [|split; [done|right; by exists n]].
    unfold candidate. apply joinpath_single; [done|].
    rewrite !app_length_str. simpl. lia.
  - injection Hout as <-. exists (target_name pre src).
    assert (slash_free (target_name pre src) = true) as Hnm
      by (unfold target_name; by rewrite slash_free_app, Hstm).
    split; [|split; [done|by left]].
    apply joinpath_single; [done|].
    unfold target_name. rewrite app_length_str. simpl. lia.
Qed.

Lemma resolve_out_in_dst_witness :
  ∃ nm, ["/"; "out"; "thumb_a.avif"] = Sample.out_dir ++ [nm]
        ∧ slash_free nm = true.
Proof.
  destruct (resolve_out_in_dst 20 Sample.files Sample.out_dir false
    (Some "thumb") ["/"; "pics"; "a.png"] ["/"; "out"; "thumb_a.avif"])
    as (nm & H1 & H2 & _); [reflexivity|reflexivity|by vm_compute|].
  exists nm. split; [exact H1|exact H2].
Defined.

Lemma has_root_parse_rooted (s : string) :
  has_root (parse_path (String "/" s)) = true.
Proof.
  unfold parse_path.
  assert (Str.leading_slashes (String "/" s) = S (Str.leading_slashes s))
    as -> by done.
  by destruct (Str.leading_slashes s) as [|[|]].
Qed.

Lemma joinpath_rooted (d : Path) (s : string) :
  joinpath d (String "/" s) = parse_path (String "/" s).
Proof. unfold joinpath. by rewrite has_root_parse_rooted. Qed.

(** X5. A prefix that starts with a slash makes the destination folder
    irrelevant: the output path is the same whatever [dst_dir] is, and it
    is a rooted path. *)
Theorem rooted_prefix_ignores_dst (fuel : nat) (fs : FS) (d1 d2 : Path)
    (ov : bool) (p : string) (src : Path) :
  resolve_out fuel fs d1 ov (Some (String "/" p)) src
  = resolve_out fuel fs d2 ov (Some (String "/" p)) src
  ∧ ∀ out, resolve_out fuel fs d1 ov (Some (String "/" p)) src = Some out →
           has_root out = true.
Proof.
  assert (∀ d n, candidate d (target_stem (Some (String "/" p)) src) n
                 = parse_path (target_stem (Some (String "/" p)) src
                               +:+ "_" +:+ pretty n +:+ ".avif")) as Hc.
  { intros d n. unfold candidate, target_stem. simpl.
    rewrite !app_cons_str. apply joinpath_rooted. }
  assert (∀ d, joinpath d (target_stem (Some (String "/" p)) src +:+ ".avif")
               = parse_path (target_stem (Some (String "/" p)) src
                             +:+ ".avif")) as Ht.
  { intros d. unfold target_stem. simpl. rewrite !app_cons_str.
    apply joinpath_rooted. }
  pose proof has_root_parse_rooted as Hr.
  assert (∀ d1 d2 n,
    probe fuel fs d1 (target_stem (Some (String "/" p)) src) n
    = probe fuel fs d2 (target_stem (Some (String "/" p)) src) n) as Hp.
  { clear d1 d2. intros d1 d2. induction fuel as [|fuel IH]; intros n; [done|].
    simpl. rewrite (Hc d1), (Hc d2). by rewrite IH. }
  split.
  - unfold resolve_out. rewrite (Ht d1), (Ht d2). by rewrite (Hp d1 d2).
  - intros out. unfold resolve_out. rewrite (Ht d1). case_match.
    + intros (n & _ & -> & _)%probe_Some. rewrite Hc.
      unfold target_stem. simpl. rewrite !app_cons_str. apply Hr.
    + intros [= <-]. unfold target_stem. simpl. rewrite !app_cons_str.
      apply Hr.
Qed.

Example rooted_prefix_output :
  resolve_out 20 Sample.files Sample.out_dir false (Some "/tmp/x")
    ["/"; "pics"; "a.png"]
  = Some ["/"; "tmp"; "x_a.avif"].
Proof. by vm_compute. Qed.

(** ** More on the per-item conversion *)



(** ** More on the batch *)

Lemma resolve_out_free (fuel : nat) (fs : FS) (dst_dir : Path)
    (pre : option string) (src out : Path) :
  resolve_out fuel fs dst_dir false pre src = Some out → fs !! out = None.
Proof.
  unfold resolve_out. rewrite andb_true_r.
  destruct (exists_ fs _) eqn:E.
  - by intros (n & _ & _ & H & _)%probe_Some.
  - intros [= <-]. by apply exists_false.
Qed.

Lemma size_dom_mono (f g : FS) : dom f ⊆ dom g → (size f ≤ size g)%nat.
Proof. intros H%subseteq_size. by rewrite !size_dom in H. Qed.

Lemma size_dom_grows (f g : FS) (p : Path) :
  dom f ⊆ dom g → f !! p = None → is_Some (g !! p) →
  (S (size f) ≤ size g)%nat.
Proof.
  intros Hsub Hf Hg.
  assert (dom f ⊂ dom g) as H%subset_size.
  { split; [done|]. intros Hgf. apply elem_of_dom in Hg.
    apply Hgf, elem_of_dom in Hg. rewrite Hf in Hg. by destruct Hg. }
  rewrite !size_dom in H. lia.
Qed.

Lemma successes_app (rs1 rs2 : list (Path * option string)) :
  successes (rs1 ++ rs2) = (successes rs1 + successes rs2)%nat.
Proof. unfold successes. by rewrite filter_app, length_app. Qed.

Lemma returns_app (l1 l2 : list event) :
  returns (l1 ++ l2) = returns l1 ++ returns l2.
Proof. apply omap_app. Qed.

Section BatchMore.

Context (pil_open : FS → Path → outcome Image).
Context (pil_save :
  FS → Image → Path → gmap string pvalue → outcome unit * FS).

Abbreviation convert_one' := (convert_one pil_open pil_save).
Abbreviation worker_loop' := (worker_loop pil_open pil_save).
Abbreviation worker' := (worker pil_open pil_save).
Abbreviation encoded' := (encoded pil_save).

(** The two ways a call of [convert_one] goes. *)
Lemma convert_one_step (fuel : nat) (w : World) (src dst_dir : Path)
    (ov : bool) (q s : Z) (l k : bool) (pre : option string)
    (msg : option string) (w' : World) :
  convert_one' fuel w src dst_dir ov q s l k pre = Some (msg, w') →
  (∃ e, pil_open (fs w) src = Raise e
        ∧ msg = Some ("Skip " +:+ name src +:+ ": " +:+ e) ∧ w' = w)
  ∨ (∃ im out, pil_open (fs w) src = Ok im
               ∧ resolve_out fuel (fs w) dst_dir ov pre src = Some out
               ∧ (msg, w') = encoded' w src im out q s l k).
Proof.
  intros H. destruct (pil_open (fs w) src) as [im|e] eqn:E.
  - right. destruct (resolve_out fuel (fs w) dst_dir ov pre src)
      as [out|] eqn:Eo.
    + rewrite (convert_one_ok _ _ _ _ _ _ _ _ _ _ _ _ _ _ E Eo) in H.
      exists im, out. split; [done|]. split; [done|]. congruence.
    + unfold convert_one in H. by rewrite E, Eo in H.
  - left. rewrite (convert_one_raise _ _ _ _ _ _ _ _ _ _ _ _ _ E) in H.
    exists e. by simplify_eq.
Qed.

(** An induction principle for the runs of [worker]: a property [Q] of
    the events emitted so far and of the files holds at the end when it
    holds at the start, is kept by each item together with its three
    notifications, and is kept by the two closing events. *)
Lemma worker_loop_events (Q : list event → FS → Prop) (w0 : World)
    (fuel : nat) (o : Options) (n : Z) (items : list Path) :
  (∀ evs w1 item msg w2 i,
     item ∈ items → log w1 = log w0 ++ evs → Q evs (fs w1) →
     convert_one' fuel w1 item (dst o) (overwrite o) (quality o) (speed o)
       (lossless o) (keep_exif o) (prefix o) = Some (msg, w2) →
     ∃ es, log w2 = log w1 ++ es
           ∧ Q (evs ++ es ++ item_events n i (item, msg)) (fs w2)) →
  ∀ rest i errors w1 evs errors' w',
    rest ⊆ items → log w1 = log w0 ++ evs → Q evs (fs w1) →
    worker_loop' fuel o n rest i errors w1 = Some (errors', w') →
    ∃ evs', log w' = log w0 ++ evs' ∧ Q evs' (fs w').
Proof.
  intros Hstep rest. induction rest as [|item rest IH];
    intros i errors w1 evs errors' w' Hsub Hlog HQ H; simpl in H.
  { injection H as <- <-. by exists evs. }
  destruct (convert_one' fuel w1 item _ _ _ _ _ _ _) as [[msg w2]|] eqn:E;
    [|done].
  destruct (Hstep evs w1 item msg w2 i) as (es & Hes & HQ'); try done.
  { apply Hsub. by left. }
  eapply (IH _ _ _ (evs ++ es ++ item_events n i (item, msg)));
    [| | |exact H].
  - intros x Hx. apply Hsub. by right.
  - simpl. rewrite Hes, Hlog. by rewrite <-!app_assoc.
  - done.
Qed.

Lemma worker_events (Q : list event → FS → Prop) (o : Options)
    (items : list Path) (w : World) :
  Q [] (fs w) →
  (∀ fuel evs w1 item msg w2 i n,
     item ∈ items → log w1 = log w ++ evs → Q evs (fs w1) →
     convert_one' fuel w1 item (dst o) (overwrite o) (quality o) (speed o)
       (lossless o) (keep_exif o) (prefix o) = Some (msg, w2) →
     ∃ es, log w2 = log w1 ++ es
           ∧ Q (evs ++ es ++ item_events n i (item, msg)) (fs w2)) →
  (∀ evs f t, Q evs f → Q (evs ++ [EvStatus t; EvButton "normal"]) f) →
  ∃ fuel0, ∀ fuel, (fuel0 ≤ fuel)%nat →
    ∃ w' evs, worker' fuel o items w = Some w'
              ∧ log w' = log w ++ evs ∧ Q evs (fs w').
Proof.
  intros H0 Hstep Hend.
  destruct (worker_loop_total pil_open pil_save o
    (Z.of_nat (List.length items)) items 1 0 w) as [fuel0 Htot].
  exists fuel0. intros fuel Hfuel.
  destruct (Htot fuel Hfuel) as [[errors w1] Hloop].
  destruct (worker_loop_events Q w fuel o _ items
    (λ evs w1 item msg w2 i,
       Hstep fuel evs w1 item msg w2 i (Z.of_nat (List.length items)))
    items 1 0 w [] errors w1) as (evs & Hlog & HQ);
    [done|by rewrite app_nil_r|done|done|].
  unfold worker. rewrite Hloop. eexists _, (evs ++ [_; _]).
  split; [done|]. split; [simpl; by rewrite Hlog, <-!app_assoc|].
  by apply Hend.
Qed.

Lemma replay_app (f : FS) (l1 l2 : list event) :
  replay pil_save f (l1 ++ l2) = replay pil_save (replay pil_save f l1) l2.
Proof. apply foldl_app. Qed.

Lemma replay_item_events (f : FS) (n i : Z) (r : Path * option string) :
  replay pil_save f (item_events n i r) = f.
Proof. done. Qed.

Lemma returns_item_events (n i : Z) (r : Path * option string) :
  returns (item_events n i r) = [r].
Proof. by destruct r. Qed.




(** X8. A run touches the files through the encoder only: the files at
    the end are those the encoder calls of the run, replayed in order,
    make of the files at the start. *)
Theorem worker_files_by_encoder (o : Options) (items : list Path)
    (w : World) :
  ∃ fuel0, ∀ fuel, (fuel0 ≤ fuel)%nat →
    ∃ w' evs,
      worker' fuel o items w = Some w'
      ∧ log w' = log w ++ evs
      ∧ fs w' = replay pil_save (fs w) evs.
Proof.
  apply (worker_events (λ evs f, f = replay pil_save (fs w) evs)).
  - done.
  - intros fuel evs w1 item msg w2 i n _ Hlog Hf Hconv.
    apply convert_one_step in Hconv
      as [(e & _ & -> & ->)|(im & out & _ & _ & Henc)].
    + exists []. split; [by rewrite app_nil_r|].
      by rewrite !replay_app, replay_item_events.
    + unfold encoded in Henc. injection Henc as -> ->.
      exists [EvSave (prepare_mode im) out
                (avif_params (prepare_mode im) (quality o) (speed o)
                   (lossless o) (keep_exif o))].
      split; [reflexivity|].
      rewrite !replay_app, replay_item_events. simpl. by rewrite <-Hf.
  - intros evs f t ->. by rewrite replay_app.
Qed.

(** X9. When the decoder fails on every item, the run calls the encoder
    not once and leaves the files as they were. *)
Theorem worker_nothing_decodes (o : Options) (items : list Path) (w : World)
    (Hfail : ∀ f item, item ∈ items → ∃ e, pil_open f item = Raise e) :
  ∃ fuel0, ∀ fuel, (fuel0 ≤ fuel)%nat →
    ∃ w' evs,
      worker' fuel o items w = Some w'
      ∧ log w' = log w ++ evs
      ∧ Forall (λ ev, is_save ev = false) evs
      ∧ fs w' = fs w.
Proof.
  destruct (worker_events
    (λ evs f, Forall (λ ev, is_save ev = false) evs ∧ f = fs w) o items w)
    as [fuel0 H]; [done| | |].
  - intros fuel evs w1 item msg w2 i n Hin Hlog [Hall Hf] Hconv.
    destruct (Hfail (fs w1) item Hin) as [e He].
    apply convert_one_step in Hconv
      as [(e' & _ & -> & ->)|(im & out & Hopen & _)]; [|congruence].
    exists []. split; [by rewrite app_nil_r|]. split; [|done].
    apply Forall_app. split; [done|]. by repeat constructor.
  - intros evs f t [Hall ->]. split; [|done].
    apply Forall_app. split; [done|]. by repeat constructor.
  - exists fuel0. intros fuel Hfuel.
    destruct (H fuel Hfuel) as (w' & evs & ? & ? & ? & ?). by exists w', evs.
Qed.

(** X10. With [overwrite] off and an encoder that removes no entry, a run
    never gives the encoder a path that was there when the run began, and
    every entry that was there is still there at the end. *)
Theorem worker_keeps_existing (o : Options) (items : list Path) (w : World)
    (Hov : overwrite o = false)
    (Hkeep : ∀ f im out ps, dom f ⊆ dom (pil_save f im out ps).2) :
  ∃ fuel0, ∀ fuel, (fuel0 ≤ fuel)%nat →
    ∃ w' evs,
      worker' fuel o items w = Some w'
      ∧ log w' = log w ++ evs
      ∧ Forall (saves_on_free (fs w)) evs
      ∧ dom (fs w) ⊆ dom (fs w').
Proof.
  destruct (worker_events
    (λ evs f, Forall (saves_on_free (fs w)) evs ∧ dom (fs w) ⊆ dom f)
    o items w) as [fuel0 H]; [done| | |].
  - intros fuel evs w1 item msg w2 i n _ Hlog [Hall Hdom] Hconv.
    apply convert_one_step in Hconv
      as [(e & _ & -> & ->)|(im & out & _ & Hout & Henc)].
    + exists []. split; [by rewrite app_nil_r|]. split; [|done].
      apply Forall_app. split; [done|]. by repeat constructor.
    + unfold encoded in Henc. injection Henc as -> ->.
      rewrite Hov in Hout. apply resolve_out_free in Hout.
      exists [EvSave (prepare_mode im) out
                (avif_params (prepare_mode im) (quality o) (speed o)
                   (lossless o) (keep_exif o))].
      split; [reflexivity|]. split.
      * apply Forall_app. split; [done|].
        constructor; [|by repeat constructor]. simpl.
        apply not_elem_of_dom. intros Hin%Hdom.
        by apply not_elem_of_dom in Hout.
      * simpl. etrans; [exact Hdom|apply Hkeep].
  - intros evs f t [Hall Hdom]. split; [|done].
    apply Forall_app. split; [done|]. by repeat constructor.
  - exists fuel0. intros fuel Hfuel.
    destruct (H fuel Hfuel) as (w' & evs & ? & ? & ? & ?). by exists w', evs.
Qed.

(** X11. With [overwrite] off and an encoder that removes no entry and
    leaves an entry where it has written, every success of a run adds an
    entry: the files at the end are at least as many more as there were
    successes. So no success replaced a file, of the run or from before. *)
Theorem worker_successes_add_files (o : Options) (items : list Path)
    (w : World)
    (Hov : overwrite o = false)
    (Hkeep : ∀ f im out ps, dom f ⊆ dom (pil_save f im out ps).2)
    (Hmake : ∀ f im out ps u,
       (pil_save f im out ps).1 = Ok u →
       is_Some ((pil_save f im out ps).2 !! out)) :
  ∃ fuel0, ∀ fuel, (fuel0 ≤ fuel)%nat →
    ∃ w' evs,
      worker' fuel o items w = Some w'
      ∧ log w' = log w ++ evs
      ∧ (size (fs w) + successes (returns evs) ≤ size (fs w'))%nat.
Proof.
  apply (worker_events
    (λ evs f, (size (fs w) + successes (returns evs) ≤ size f)%nat)).
  - unfold successes. simpl. lia.
  - intros fuel evs w1 item msg w2 i n _ Hlog Hsize Hconv.
    apply convert_one_step in Hconv
      as [(e & _ & -> & ->)|(im & out & _ & Hout & Henc)].
    + exists []. split; [by rewrite app_nil_r|].
      rewrite !returns_app, returns_item_events, !successes_app.
      unfold successes at 2 3. simpl. lia.
    + unfold encoded in Henc. injection Henc as -> ->.
      rewrite Hov in Hout. apply resolve_out_free in Hout.
      exists [EvSave (prepare_mode im) out
                (avif_params (prepare_mode im) (quality o) (speed o)
                   (lossless o) (keep_exif o))].
      split; [reflexivity|].
      rewrite !returns_app, returns_item_events, !successes_app. simpl.
      set (ps := avif_params (prepare_mode im) (quality o) (speed o)
                   (lossless o) (keep_exif o)) in *.
      pose proof (Hkeep (fs w1) (prepare_mode im) out ps) as Hk.
      pose proof (Hmake (fs w1) (prepare_mode im) out ps) as Hm.
      destruct (pil_save (fs w1) (prepare_mode im) out ps).1 as [u|e].
      * pose proof (size_dom_grows _ _ out Hk Hout (Hm u eq_refl)).
        unfold successes in *. simpl in *. lia.
      * apply size_dom_mono in Hk. unfold successes in *. simpl in *. lia.
  - intros evs f t Hsize. rewrite returns_app, successes_app.
    unfold successes at 2. simpl. lia.
Qed.


End BatchMore.

(** The sample encoder removes nothing and leaves an entry where it has
    written. *)
Lemma sample_encoder_keeps (f : FS) (im : Image) (out : Path)
    (ps : gmap string pvalue) :
  dom f ⊆ dom (Sample.encoder f im out ps).2.
Proof.
  unfold Sample.encoder. case_bool_decide; simpl; [done|].
  rewrite dom_insert_L. apply union_subseteq_r.
Qed.

Lemma sample_encoder_makes (f : FS) (im : Image) (out : Path)
    (ps : gmap string pvalue) (u : unit) :
  (Sample.encoder f im out ps).1 = Ok u →
  is_Some ((Sample.encoder f im out ps).2 !! out).
Proof.
  unfold Sample.encoder. case_bool_decide; simpl; [done|].
  intros _. rewrite lookup_insert_eq. by eexists.
Qed.

Lemma worker_nothing_decodes_witness :
  ∃ fuel0, ∀ fuel, (fuel0 ≤ fuel)%nat →
    ∃ w' evs,
      worker Sample.decoder Sample.encoder fuel Sample.options
        [["/"; "pics"; "b.JPG"]] Sample.start = Some w'
      ∧ log w' = log Sample.start ++ evs
      ∧ Forall (λ ev, is_save ev = false) evs
      ∧ fs w' = fs Sample.start.
Proof.
  apply (worker_nothing_decodes Sample.decoder Sample.encoder).
  intros f item ->%list_elem_of_singleton. by eexists.
Defined.

Lemma worker_keeps_existing_witness :
  ∃ fuel0, ∀ fuel, (fuel0 ≤ fuel)%nat →
    ∃ w' evs,
      worker Sample.decoder Sample.encoder fuel Sample.options
        (collect_images Sample.files Sample.pics true) Sample.start = Some w'
      ∧ log w' = log Sample.start ++ evs
      ∧ Forall (saves_on_free (fs Sample.start)) evs
      ∧ dom (fs Sample.start) ⊆ dom (fs w').
Proof.
  apply (worker_keeps_existing Sample.decoder Sample.encoder);
    [reflexivity|apply sample_encoder_keeps].
Defined.

Lemma worker_successes_add_files_witness :
  ∃ fuel0, ∀ fuel, (fuel0 ≤ fuel)%nat →
    ∃ w' evs,
      worker Sample.decoder Sample.encoder fuel Sample.options
        (collect_images Sample.files Sample.pics true) Sample.start = Some w'
      ∧ log w' = log Sample.start ++ evs
      ∧ (size (fs Sample.start) + successes (returns evs) ≤ size (fs w'))%nat.
Proof.
  apply (worker_successes_add_files Sample.decoder Sample.encoder);
    [reflexivity|apply sample_encoder_keeps|apply sample_encoder_makes].
Defined.


(** ** More on the prefix *)

Lemma lstrip_split (s : string) :
  ∃ a, s = a +:+ Str.lstrip s ∧ all_space a = true.
Proof.
  induction s as [|c s (a & Ha & Hsp)]; [by exists ""|]. simpl.
  destruct (Char.isspace c) eqn:Hc.
  - exists (String c a). rewrite app_cons_str, <-Ha. simpl. by rewrite Hc.
  - by exists "".
Qed.

Lemma rstrip_split (s : string) :
  ∃ b, s = Str.rstrip s +:+ b ∧ all_space b = true.
Proof.
  induction s as [|c s (b & Hb & Hsp)]; [by exists ""|]. simpl.
  destruct (Str.rstrip s) as [|x r] eqn:E.
  - rewrite app_nil_l_str in Hb. subst b.
    destruct (Char.isspace c) eqn:Hc.
    + exists (String c s). split; [done|]. simpl. by rewrite Hc.
    + exists s. by rewrite app_cons_str, app_nil_l_str.
  - exists b. by rewrite app_cons_str, <-Hb.
Qed.

Lemma lstrip_fixed (s : string) :
  Str.lstrip s = s ↔ s = "" ∨ ∃ c s', s = String c s' ∧ Char.isspace c = false.
Proof.
  destruct s as [|c s]; simpl; [split; [by left|done]|].
  destruct (Char.isspace c) eqn:Hc.
  - split.
    + intros H. destruct (lstrip_split s) as (a & Ha & _).
      apply (f_equal String.length) in H, Ha. simpl in H.
      rewrite app_length_str in Ha. lia.
    + intros [?|(c' & s' & [= <- <-] & ?)]; [done|congruence].
  - split; [|done]. intros _. right. by exists c, s.
Qed.

Lemma rstrip_idem (s : string) : Str.rstrip (Str.rstrip s) = Str.rstrip s.
Proof.
  induction s as [|c s IH]; [done|]. simpl.
  destruct (Str.rstrip s) as [|x r] eqn:E.
  - destruct (Char.isspace c) eqn:Hc; [done|]. simpl. by rewrite Hc.
  - change (Str.rstrip (String c (String x r))) with
      (match Str.rstrip (String x r) with
       | "" => if Char.isspace c then "" else String c ""
       | r' => String c r'
       end). by rewrite IH.
Qed.

Lemma lstrip_rstrip (s : string) :
  Str.lstrip s = s → Str.lstrip (Str.rstrip s) = Str.rstrip s.
Proof.
  intros [->|(c & s' & -> & Hc)]%lstrip_fixed; [done|].
  simpl. destruct (Str.rstrip s'); rewrite ?Hc; simpl; by rewrite Hc.
Qed.

Lemma lstrip_idem (s : string) : Str.lstrip (Str.lstrip s) = Str.lstrip s.
Proof.
  induction s as [|c s IH]; [done|]. simpl.
  destruct (Char.isspace c) eqn:Hc; [done|]. simpl. by rewrite Hc.
Qed.

(** X13. A prefix that is kept is the text of the field without the
    spaces at its two ends, and nothing else is removed; it is not empty,
    neither begins nor ends with a space, and normalising it again gives
    it back. *)
Theorem normalize_prefix_kept (raw p : string)
    (Hp : normalize_prefix raw = Some p) :
  (∃ a b, raw = a +:+ p +:+ b ∧ all_space a = true ∧ all_space b = true)
  ∧ p ≠ ""
  ∧ Str.lstrip p = p
  ∧ Str.rstrip p = p
  ∧ normalize_prefix p = Some p.
Proof.
  apply normalize_prefix_Some in Hp as [-> Hne].
  assert (Str.lstrip (Str.strip raw) = Str.strip raw) as Hl
    by apply lstrip_rstrip, lstrip_idem.
  assert (Str.rstrip (Str.strip raw) = Str.strip raw) as Hr
    by apply rstrip_idem.
  split; [|split; [done|split; [done|split; [done|]]]].
  - destruct (lstrip_split raw) as (a & Ha & Hsa).
    destruct (rstrip_split (Str.lstrip raw)) as (b & Hb & Hsb).
    exists a, b. split; [|done]. fold (Str.strip raw) in Hb.
    by rewrite <-Hb.
  - unfold normalize_prefix. unfold Str.strip at 1 3. rewrite Hl, Hr.
    by destruct (Str.strip raw).
Qed.

Lemma normalize_prefix_kept_witness :
  normalize_prefix "  my thumb " = Some "my thumb"
  ∧ normalize_prefix "my thumb" = Some "my thumb".
Proof.
  split; [reflexivity|].
  exact (proj2 (proj2 (proj2 (proj2
    (normalize_prefix_kept "  my thumb " "my thumb" eq_refl))))).
Defined.

(** ** Paths and their text *)

Lemma split_slash_single (a : string) :
  slash_free a = true → Str.split_slash a = [a].
Proof.
  intros Ha. destruct (split_slash_snoc "" a Ha) as (ini & l & Hini & H).
  rewrite app_nil_l_str in H. rewrite H.
  destruct ini as [|x [|y ini]]; simplify_eq/=. by rewrite app_nil_l_str.
Qed.

Lemma split_slash_part (a rest : string) :
  slash_free a = true →
  Str.split_slash (a +:+ "/" +:+ rest) = a :: Str.split_slash rest.
Proof.
  intros Ha. induction a as [|c a IH].
  - rewrite app_nil_l_str, app_cons_str, app_nil_l_str. simpl.
    first [done|by rewrite decide_True].
  - simpl in Ha. apply andb_true_iff in Ha as [Hc Ha].
    apply negb_true_iff, bool_decide_eq_false in Hc.
    rewrite app_cons_str. simpl. rewrite decide_False by done.
    by rewrite (IH Ha).
Qed.

Lemma split_slash_slash_free (s : string) :
  Forall (λ c, slash_free c = true) (Str.split_slash s).
Proof.
  induction s as [|c s IH]; simpl.
  - by repeat constructor.
  - case_decide; [by constructor|].
    destruct (Str.split_slash s) as [|w ws].
    + constructor; [|done]. simpl. by rewrite bool_decide_eq_false_2.
    + inversion_clear IH. constructor; [|done]. simpl.
      by rewrite bool_decide_eq_false_2.
Qed.

Lemma wf_part_spec (c : string) :
  wf_part c = true ↔ slash_free c = true ∧ c ≠ "" ∧ c ≠ ".".
Proof.
  unfold wf_part. rewrite !andb_true_iff, !negb_true_iff,
    !bool_decide_eq_false. tauto.
Qed.

Lemma split_slash_concat (parts : list string) :
  parts ≠ [] → forallb wf_part parts = true →
  Str.split_slash (String.concat "/" parts) = parts.
Proof.
  induction parts as [|a parts IH]; [done|]. intros _ H. simpl in H.
  apply andb_true_iff in H as [[Ha _]%wf_part_spec Hps].
  destruct parts as [|b parts]; [by apply split_slash_single|].
  change (String.concat "/" (a :: b :: parts))
    with (a +:+ "/" +:+ String.concat "/" (b :: parts)).
  rewrite split_slash_part by done. f_equal. by apply IH.
Qed.

Lemma filter_wf_parts (parts : list string) :
  forallb wf_part parts = true →
  filter (λ c, c ≠ "" ∧ c ≠ ".") parts = parts.
Proof.
  induction parts as [|a parts IH]; [done|]. simpl.
  intros [[_ Ha]%wf_part_spec Hps]%andb_true_iff.
  rewrite filter_cons_True by done. by rewrite IH.
Qed.

Lemma leading_slashes_concat (parts : list string) :
  forallb wf_part parts = true →
  Str.leading_slashes (String.concat "/" parts) = O.
Proof.
  destruct parts as [|a parts]; [done|]. simpl.
  intros [(Hs & Hne & _)%wf_part_spec _]%andb_true_iff.
  destruct a as [|c a]; [done|]. simpl in Hs.
  apply andb_true_iff in Hs as [Hc _].
  apply negb_true_iff, bool_decide_eq_false in Hc.
  destruct parts; simpl; by rewrite decide_False.
Qed.

Lemma parse_concat (parts : list string) :
  forallb wf_part parts = true →
  filter (λ c, c ≠ "" ∧ c ≠ ".") (Str.split_slash (String.concat "/" parts))
  = parts.
Proof.
  intros H. destruct parts as [|a parts]; [done|].
  rewrite split_slash_concat by done. by apply filter_wf_parts.
Qed.

Lemma wf_parse_path (s : string) : wf_path (parse_path s) = true.
Proof.
  assert (forallb wf_part
    (filter (λ c, c ≠ "" ∧ c ≠ ".") (Str.split_slash s)) = true) as H.
  { apply forallb_forall. intros c [[H1 H2] Hc]%list_elem_of_In%list_elem_of_filter.
    apply wf_part_spec. split; [|done].
    pose proof (split_slash_slash_free s) as Hall.
    rewrite Forall_forall in Hall. by apply Hall. }
  unfold parse_path.
  destruct (Str.leading_slashes s) as [|[|[|n]]]; simpl; try done.
  destruct (filter _ _) as [|c tl]; [done|]. simpl in *.
  apply andb_true_iff in H as [-> ->]. by rewrite orb_true_r.
Qed.

Lemma parse_path_str (p : Path) :
  wf_path p = true → parse_path (path_str p) = p.
Proof.
  destruct p as [|c tl]; [done|]. intros H. simpl in H.
  apply andb_true_iff in H as [Hc Htl].
  unfold path_str. destruct (is_root c) eqn:Hr.
  - assert (c = "/" ∨ c = "//") as Hcases.
    { unfold is_root in Hr. apply orb_true_iff in Hr as [H|H];
        apply bool_decide_eq_true in H; auto. }
    pose proof (leading_slashes_concat tl Htl) as Hl.
    pose proof (parse_concat tl Htl) as Hp.
    unfold parse_path. destruct Hcases as [-> | ->].
    + rewrite app_cons_str, app_nil_l_str. simpl. rewrite Hl.
      by rewrite filter_cons_False, Hp by (by intros [? _]).
    + rewrite !app_cons_str, app_nil_l_str. simpl. rewrite Hl.
      by rewrite !filter_cons_False, Hp by (by intros [? _]).
  - simpl in Hc.
    assert (forallb wf_part (c :: tl) = true) as H
      by (simpl; by rewrite Hc, Htl).
    unfold parse_path. rewrite (leading_slashes_concat _ H).
    by apply parse_concat.
Qed.

(** X14. The text of a path reads back as that path: [Path(str(p))] is
    [p] for every well-formed [p]; what [Path] makes of any text is
    well-formed, so making a path of a text, writing it out and reading it
    again gives the same path. *)
Theorem path_text_round_trip (s : string) :
  wf_path (parse_path s) = true
  ∧ parse_path (path_str (parse_path s)) = parse_path s
  ∧ ∀ p, wf_path p = true → parse_path (path_str p) = p.
Proof.
  split; [apply wf_parse_path|]. split; [|apply parse_path_str].
  apply parse_path_str, wf_parse_path.
Qed.

(** ** The window *)


Section WindowProperties.

Context (expanduser : Path → outcome Path).
Context (mkdir : FS → Path → outcome unit * FS).

Abbreviation start_conversion' := (start_conversion expanduser mkdir).


(** X18. When [start_conversion] finds nothing to convert it says so and
    starts no worker, but the destination folder has been made by then:
    the files are those that [mkdir] has left. *)
Theorem start_conversion_nothing (v : Vars) (fs : FS) (title text : string)
    (H : ShowInfo title text ∈ (start_conversion' v fs).1.2) :
  ∃ src dst u fs',
    expanduser (parse_path (Str.strip (src_var v))) = Ok src
    ∧ expanduser (parse_path (Str.strip (dst_var v))) = Ok dst
    ∧ is_Some (fs !! src)
    ∧ mkdir fs dst = (Ok u, fs')
    ∧ collect_images fs' src (recursive_var v) = []
    ∧ start_conversion' v fs
      = (fs', [ShowInfo "Nothing to do" "No supported images found"],
         Returned).
Proof.
  unfold start_conversion in *.
  destruct (expanduser (parse_path (Str.strip (src_var v))))
    as [src|e]; [|by apply elem_of_nil in H].
  destruct (expanduser (parse_path (Str.strip (dst_var v))))
    as [dst|e]; [|by apply elem_of_nil in H].
  destruct (exists_ fs src) eqn:E; simpl in *.
  - destruct (mkdir fs dst) as [[u|e] fs1] eqn:Em;
      [|by apply elem_of_nil in H].
    destruct (quality_var v) as [q|e]; [|by apply elem_of_nil in H].
    destruct (speed_var v) as [s|e]; [|by apply elem_of_nil in H].
    destruct (collect_images fs1 src (recursive_var v)) eqn:Ec; simpl in H.
    + exists src, dst, u, fs1. apply exists_true in E.
      do 5 (split; [done|]). done.
    + repeat (apply elem_of_cons in H as [H|H]; [done|]).
      by apply elem_of_nil in H.
  - apply elem_of_cons in H as [H|H]; [done|]. by apply elem_of_nil in H.
Qed.

End WindowProperties.


Lemma start_conversion_nothing_witness :
  ShowInfo "Nothing to do" "No supported images found"
  ∈ (start_conversion SampleWindow.expanduser SampleWindow.mkdir
       (set_dst_var "/new" (set_src_var "/out" SampleWindow.vars))
       Sample.files).1.2
  ∧ (start_conversion SampleWindow.expanduser SampleWindow.mkdir
       (set_dst_var "/new" (set_src_var "/out" SampleWindow.vars))
       Sample.files).2 = Returned.
Proof.
  assert (ShowInfo "Nothing to do" "No supported images found"
          ∈ (start_conversion SampleWindow.expanduser SampleWindow.mkdir
               (set_dst_var "/new" (set_src_var "/out" SampleWindow.vars))
               Sample.files).1.2) as Hin
    by (vm_compute; by left).
  split; [exact Hin|].
  destruct (start_conversion_nothing SampleWindow.expanduser
    SampleWindow.mkdir _ _ _ _ Hin)
    as (src & dst & u & fs' & _ & _ & _ & _ & _ & ->).
  reflexivity.
Defined.

(** A folder whose name ends with a space does not survive the field: the
    text is stripped when it is read. *)
Example trailing_space_lost :
  parse_path (Str.strip (path_str ["/"; "out "])) = ["/"; "out"].
Proof. by vm_compute. Qed.

(** ** Converting the same source twice *)

Lemma target_ne_candidate (dst_dir : Path) (stm : string) (n : Z) :
  0 <= n → joinpath dst_dir (stm +:+ ".avif") ≠ candidate dst_dir stm n.
Proof.
  intros Hn E. unfold candidate in E.
  pose proof (pretty_Z_slash_free n Hn) as Fn.
  destruct (joinpath_last dst_dir stm ".avif") as (l1 & H1 & L1);
    [done|simpl; lia|].
  destruct (joinpath_last dst_dir stm ("_" +:+ pretty n +:+ ".avif"))
    as (l2 & H2 & L2).
  { by rewrite !slash_free_app, Fn. }
  { rewrite !app_length_str. simpl. lia. }
  rewrite E, H2 in H1. rewrite L1 in L2. injection L2 as ->.
  injection H1 as H1. apply String.app_inj in H1.
  by rewrite app_cons_str in H1.
Qed.

Section Twice.

Context (pil_open : FS → Path → outcome Image).
Context (pil_save :
  FS → Image → Path → gmap string pvalue → outcome unit * FS).

Abbreviation convert_one' := (convert_one pil_open pil_save).

(** X19. With [overwrite] off, a decoder that gives an image and an
    encoder that writes the file it is asked for, converting a source
    twice into a folder where [stem.avif] and [stem_2.avif] are free
    writes [stem.avif] the first time and [stem_2.avif] the second: two
    files, the first one untouched by the second conversion. *)
Theorem convert_twice (fuel : nat) (w : World) (src dst_dir : Path)
    (q s : Z) (l k : bool) (pre : option string) (im : Image)
    (Hfuel : (1 ≤ fuel)%nat)
    (Hopen : ∀ f, pil_open f src = Ok im)
    (Hsave : ∀ f i out ps, pil_save f i out ps = (Ok (), <[out := KFile]> f))
    (Hfree1 : fs w !! joinpath dst_dir (target_name pre src) = None)
    (Hfree2 : fs w !! candidate dst_dir (target_stem pre src) 2 = None) :
  let target := joinpath dst_dir (target_name pre src) in
  let second := candidate dst_dir (target_stem pre src) 2 in
  let ps := avif_params (prepare_mode im) q s l k in
  ∃ w1 w2,
    convert_one' fuel w src dst_dir false q s l k pre = Some (None, w1)
    ∧ convert_one' fuel w1 src dst_dir false q s l k pre = Some (None, w2)
    ∧ log w2 = log w ++ [EvSave (prepare_mode im) target ps;
                         EvSave (prepare_mode im) second ps]
    ∧ fs w2 = <[second := KFile]> (<[target := KFile]> (fs w))
    ∧ target ≠ second.
Proof.
  intros target second ps.
  assert (target ≠ second) as Hne by (by apply target_ne_candidate).
  set (w1 := {| fs := <[target := KFile]> (fs w);
                log := log w ++ [EvSave (prepare_mode im) target ps] |}).
  set (w2 := {| fs := <[second := KFile]> (fs w1);
                log := log w1 ++ [EvSave (prepare_mode im) second ps] |}).
  exists w1, w2.
  assert (convert_one' fuel w src dst_dir false q s l k pre
          = Some (None, w1)) as H1.
  { rewrite (convert_one_ok pil_open pil_save fuel w src dst_dir false q s l
               k pre im target (Hopen _)).
    - unfold encoded. fold ps. by rewrite Hsave.
    - unfold resolve_out.
      change (joinpath dst_dir (target_stem pre src +:+ ".avif")) with target.
      assert (exists_ (fs w) target = false) as -> by (by apply exists_false).
      done. }
  assert (convert_one' fuel w1 src dst_dir false q s l k pre
          = Some (None, w2)) as H2.
  { rewrite (convert_one_ok pil_open pil_save fuel w1 src dst_dir false q s l
               k pre im second (Hopen _)).
    - unfold encoded. fold ps. by rewrite Hsave.
    - unfold resolve_out.
      change (joinpath dst_dir (target_stem pre src +:+ ".avif")) with target.
      assert (exists_ (fs w1) target = true) as ->.
      { apply exists_true. simpl. rewrite lookup_insert_eq. by eexists. }
      destruct fuel as [|fuel]; [lia|].
      change (probe (S fuel) (fs w1) dst_dir (target_stem pre src) 2)
        with (if negb (exists_ (fs w1) second) then Some second
              else probe fuel (fs w1) dst_dir (target_stem pre src) (2 + 1)).
      assert (exists_ (fs w1) second = false) as ->; [|done].
      apply exists_false. simpl. by rewrite lookup_insert_ne. }
  split; [done|]. split; [done|]. split; [|done].
  simpl. by rewrite <-app_assoc.
Qed.

End Twice.

Lemma convert_twice_witness :
  ∃ w1 w2,
    convert_one Sample.decoder (λ f i out ps, (Ok (), <[out := KFile]> f)) 1
      Sample.start ["/"; "pics"; "sub-1.png"] Sample.out_dir false 80 6 false
      true None = Some (None, w1)
    ∧ convert_one Sample.decoder (λ f i out ps, (Ok (), <[out := KFile]> f)) 1
        w1 ["/"; "pics"; "sub-1.png"] Sample.out_dir false 80 6 false true
        None = Some (None, w2)
    ∧ returns (log w2) = []
    ∧ List.length (log w2) = 2%nat.
Proof.
  destruct (convert_twice Sample.decoder
    (λ f i out ps, (Ok (), <[out := KFile]> f)) 1 Sample.start
    ["/"; "pics"; "sub-1.png"] Sample.out_dir 80 6 false true None
    (mkImage "LA" {[ "exif" := "Exif-bytes"; "icc_profile" := "sRGB" ]}
       "sub-1.png"))
    as (w1 & w2 & H1 & H2 & Hlog & _); try done.
  exists w1, w2. split; [exact H1|]. split; [exact H2|].
  rewrite Hlog. split; reflexivity.
Defined.

(** * Queries that fail *)

(** ** Discovery *)

Section OsDiscovery.

Context (stat_error : FS → Path → option string).
Context (glob rglob : FS → Path → list Path).

Abbreviation keep_images' := (Os.keep_images stat_error).
Abbreviation collect_images' := (Os.collect_images stat_error glob rglob).

(** The comprehension gives a list when no query raises, and then it is
    the listing filtered. *)
Lemma os_keep_images_Ok (fs : FS) (it l : list Path) :
  keep_images' fs it = Ok l ↔
  Forall (λ p, stat_error fs p = None) it
  ∧ l = filter (λ p, is_file fs p && recognized p) it.
Proof.
  revert l. induction it as [|p it IH]; intros l; simpl.
  { split; [by intros [= <-]|by intros [_ ->]]. }
  unfold Os.is_file. destruct (stat_error fs p) as [e|] eqn:Ep.
  { split; [done|]. intros [H _]. apply Forall_cons in H as [H _].
    congruence. }
  rewrite filter_cons. fold (is_file fs p).
  destruct (keep_images' fs it) as [l'|e'].
  - destruct (IH l') as [[Hall ->] _]; [done|].
    assert ((if is_file fs p && recognized p
             then p :: filter (λ p, is_file fs p && recognized p) it
             else filter (λ p, is_file fs p && recognized p) it)
            = (if decide (is_file fs p && recognized p)
               then p :: filter (λ p, is_file fs p && recognized p) it
               else filter (λ p, is_file fs p && recognized p) it)) as ->.
    { destruct (is_file fs p && recognized p); by case_decide. }
    split; [intros [= <-]; split; [by constructor|done]|by intros [_ ->]].
  - split; [done|]. intros [H _]. apply Forall_cons in H as [_ H].
    destruct (IH (filter (λ p, is_file fs p && recognized p) it))
      as [_ H']. by specialize (H' (conj H eq_refl)).
Qed.

(** It raises what the first query that fails raises. *)
Lemma os_keep_images_Raise (fs : FS) (it : list Path) (e : string) :
  keep_images' fs it = Raise e ↔
  ∃ it1 p it2, it = it1 ++ p :: it2
               ∧ Forall (λ q, stat_error fs q = None) it1
               ∧ stat_error fs p = Some e.
Proof.
  induction it as [|p it IH]; simpl.
  { split; [done|]. intros (it1 & p & it2 & H & _). by destruct it1. }
  unfold Os.is_file. destruct (stat_error fs p) as [e'|] eqn:Ep.
  - split.
    + intros [= ->]. exists [], p, it. by repeat split.
    + intros ([|q it1] & p' & it2 & H & Hall & He); simplify_eq/=.
      * congruence.
      * apply Forall_cons in Hall as [Hq _]. congruence.
  - destruct (keep_images' fs it) as [l'|e'] eqn:Ek.
    + split; [done|].
      intros ([|q it1] & p' & it2 & H & Hall & He); simplify_eq/=.
      apply Forall_cons in Hall as [_ Hall].
      assert (Ok l' = Raise e :> outcome (list Path)) as Habs; [|done].
      apply IH. by exists it1, p', it2.
    + split.
      * intros [= ->]. destruct IH as [IH _].
        destruct (IH eq_refl) as (it1 & p' & it2 & -> & Hall & He).
        exists (p :: it1), p', it2. split; [done|]. split; [|done].
        by constructor.
      * intros ([|q it1] & p' & it2 & H & Hall & He); simplify_eq/=.
        apply Forall_cons in Hall as [_ Hall].
        f_equal. assert (Raise e' = Raise e :> outcome (list Path)) as [=];
          [|done].
        apply IH. by exists it1, p', it2.
Qed.

Lemma os_collect_images_unfold_dir (fs : FS) (src : Path) (recursive : bool) :
  stat_error fs src = None → fs !! src = Some KDir →
  collect_images' fs src recursive
  = match keep_images' fs (if recursive then rglob fs src else glob fs src)
    with
    | Ok l => Ok (sorted l)
    | Raise e => Raise e
    end.
Proof.
  intros Hs Hd. unfold Os.collect_images, Os.is_file, Os.is_dir.
  rewrite Hs, Hd. rewrite bool_decide_eq_false_2 by done.
  rewrite bool_decide_eq_true_2 by done.
  by destruct (keep_images' fs _).
Qed.

(** C3. On a directory that can be queried, discovery gives the entries
    that [glob] (or [rglob], when [recursive]) lists, those that are
    regular files with a recognised extension (lower-cased) and no
    others, as often as they are listed, in increasing order of their
    paths compared part by part, provided [is_file] answers on every
    listed entry; otherwise it raises what the first query that fails
    raises. *)
Theorem os_collect_images_dir (fs : FS) (src : Path) (recursive : bool)
    (Hsrc : stat_error fs src = None)
    (Hdir : fs !! src = Some KDir) :
  let it := if recursive then rglob fs src else glob fs src in
  (Forall (λ p, stat_error fs p = None) it →
   ∃ l, collect_images' fs src recursive = Ok l
        ∧ l ≡ₚ filter (λ p, is_file fs p && recognized p) it
        ∧ (∀ p, p ∈ l ↔ p ∈ it ∧ fs !! p = Some KFile
                        ∧ Str.lower (suffix p) ∈ COMMON_EXTS)
        ∧ StronglySorted path_le l
        ∧ (NoDup it → StronglySorted path_lt l))
  ∧ (∀ e, collect_images' fs src recursive = Raise e ↔
          ∃ it1 p it2, it = it1 ++ p :: it2
                       ∧ Forall (λ q, stat_error fs q = None) it1
                       ∧ stat_error fs p = Some e).
Proof.
  intros it. rewrite os_collect_images_unfold_dir by done. fold it. split.
  - intros Hall.
    assert (keep_images' fs it
            = Ok (filter (λ p, is_file fs p && recognized p) it)) as ->
      by (by apply os_keep_images_Ok).
    eexists. split; [done|]. split; [apply sorted_perm|]. split.
    { intros p. rewrite sorted_perm, list_elem_of_filter, andb_True.
      unfold is_file, recognized. rewrite !bool_decide_spec. tauto. }
    split; [apply sorted_strongly|].
    intros Hnd. by apply sorted_strict, NoDup_filter.
  - intros e. rewrite <-os_keep_images_Raise.
    destruct (keep_images' fs it); split; congruence.
Qed.

(** C8. On a regular file, discovery gives that file alone when its
    lower-cased extension is recognised and nothing otherwise; on a path
    that the filesystem reports as neither a regular file nor a
    directory it gives nothing; and when the query on the source fails,
    the error leaves discovery. *)
Theorem os_collect_images_file (fs : FS) (src : Path) (recursive : bool) :
  (stat_error fs src = None → fs !! src = Some KFile →
   collect_images' fs src recursive =
   Ok (if bool_decide (Str.lower (suffix src) ∈ COMMON_EXTS)
       then [src] else []))
  ∧ (stat_error fs src = None →
     fs !! src ≠ Some KFile → fs !! src ≠ Some KDir →
     collect_images' fs src recursive = Ok [])
  ∧ (∀ e, stat_error fs src = Some e →
          collect_images' fs src recursive = Raise e).
Proof.
  unfold Os.collect_images, Os.is_file, Os.is_dir, recognized.
  split; [|split].
  - intros -> Hf. by rewrite bool_decide_eq_true_2.
  - intros -> Hf Hd. by rewrite !bool_decide_eq_false_2.
  - by intros e ->.
Qed.

End OsDiscovery.

(** Where no query fails and the listing is that of a tree without
    links, this is [collect_images]. *)
Lemma os_collect_images_no_error (fs : FS) (src : Path) (recursive : bool) :
  Os.collect_images Os.no_error glob rglob fs src recursive
  = Ok (collect_images fs src recursive).
Proof.
  unfold Os.collect_images, collect_images, Os.is_file, Os.is_dir,
    Os.no_error. fold (is_file fs src) (is_dir fs src).
  destruct (is_file fs src); [done|].
  destruct (is_dir fs src); [|done]. simpl.
  destruct (os_keep_images_Ok Os.no_error fs
    (if recursive then rglob fs src else glob fs src)
    (filter (λ p, is_file fs p && recognized p)
       (if recursive then rglob fs src else glob fs src))) as [_ H].
  unfold Os.no_error in H. rewrite H; [done|].
  split; [|done]. by apply Forall_forall.
Qed.

Lemma os_collect_images_dir_witness :
  ∃ l, Os.collect_images LongNames.stat_error glob rglob Sample.files
         Sample.pics true = Ok l
       ∧ StronglySorted path_le l.
Proof.
  destruct (os_collect_images_dir LongNames.stat_error glob rglob
    Sample.files Sample.pics true) as [H _].
  - by vm_compute.
  - by vm_compute.
  - destruct H as (l & Hl & _ & _ & Hs & _).
    + apply (bool_decide_unpack _). by vm_compute.
    + exists l. split; [exact Hl|exact Hs].
Defined.

Lemma os_collect_images_file_witness :
  Os.collect_images LongNames.stat_error glob rglob Sample.files
    ["/"; "pics"; "b.JPG"] true = Ok [["/"; "pics"; "b.JPG"]]
  ∧ Os.collect_images LongNames.stat_error glob rglob Sample.files
      ["/"; "nowhere"] true = Ok []
  ∧ Os.collect_images LongNames.stat_error glob rglob Sample.files
      ["/"; LongNames.ms 300] true = Raise "[Errno 36] File name too long".
Proof.
  destruct (os_collect_images_file LongNames.stat_error glob rglob
    Sample.files ["/"; "pics"; "b.JPG"] true) as (H1 & _ & _).
  destruct (os_collect_images_file LongNames.stat_error glob rglob
    Sample.files ["/"; "nowhere"] true) as (_ & H2 & _).
  destruct (os_collect_images_file LongNames.stat_error glob rglob
    Sample.files ["/"; LongNames.ms 300] true) as (_ & _ & H3).
  split; [|split].
  - rewrite H1; by vm_compute.
  - apply H2; by vm_compute.
  - apply H3. by vm_compute.
Defined.

(** The order is not that of the texts of the paths, and not every
    regular file below the folder is found. The files found below
    [/pics] come out with [sub/c.gif] before [sub-1.png], and the texts
    of these two paths are in the other order. And the regular file
    [e.png], below [/pics] through a link to a folder, is not found. *)
Lemma collect_images_order_and_depth :
  (∃ l, Os.collect_images Os.no_error glob rglob Sample.files Sample.pics
          true = Ok l
        ∧ ¬ Sorted text_le l)
  ∧ (∃ l, Os.collect_images Os.no_error glob Links.rglob Links.files
            Sample.pics true = Ok l
          ∧ Links.files !! (Links.link ++ ["e.png"]) = Some KFile
          ∧ Str.lower (suffix (Links.link ++ ["e.png"])) ∈ COMMON_EXTS
          ∧ is_below Sample.pics (Links.link ++ ["e.png"]) = true
          ∧ Links.link ++ ["e.png"] ∉ l).
Proof.
  split.
  - eexists. split; [by vm_compute|]. intros H.
    apply Sorted_StronglySorted in H.
    + apply StronglySorted_inv in H as [H _].
      apply StronglySorted_inv in H as [H _].
      apply StronglySorted_inv in H as [_ H].
      apply Forall_cons in H as [H _]. by vm_compute in H.
    + intros p q r. unfold text_le. intros Hpq%Is_true_true Hqr%Is_true_true.
      apply Is_true_true. change (String.le (path_str p) (path_str r)).
      by etrans.
  - eexists. split; [by vm_compute|]. split; [by vm_compute|].
    split; [|split; [by vm_compute|]].
    + apply (bool_decide_unpack _). by vm_compute.
    + apply (bool_decide_unpack _). by vm_compute.
Qed.

(** A missing source with a name that is too long: discovery raises, it
    does not give the empty list. *)
Lemma collect_images_raises :
  Sample.files !! ["/"; LongNames.ms 300] = None
  ∧ Os.collect_images LongNames.stat_error glob rglob Sample.files
      ["/"; LongNames.ms 300] true
    = Raise "[Errno 36] File name too long".
Proof. split; by vm_compute. Qed.

(** ** The conversion and the batch *)

Lemma os_probe_no_error (fuel : nat) (fs : FS) (dst_dir : Path)
    (stm : string) (n : Z) :
  Os.probe Os.no_error fuel fs dst_dir stm n
  = Ok <$> probe fuel fs dst_dir stm n.
Proof.
  revert n. induction fuel as [|fuel IH]; intros n; [done|].
  simpl. unfold Os.exists_, Os.no_error.
  fold (exists_ fs (candidate dst_dir stm n)).
  destruct (exists_ fs (candidate dst_dir stm n)); simpl; [apply IH|done].
Qed.

Lemma os_resolve_out_no_error (fuel : nat) (fs : FS) (dst_dir : Path)
    (ov : bool) (pre : option string) (src : Path) :
  Os.resolve_out Os.no_error fuel fs dst_dir ov pre src
  = Ok <$> resolve_out fuel fs dst_dir ov pre src.
Proof.
  unfold Os.resolve_out, resolve_out, Os.exists_, Os.no_error.
  fold (exists_ fs (joinpath dst_dir (target_stem pre src +:+ ".avif"))).
  destruct (exists_ fs _ && negb ov); [apply os_probe_no_error|done].
Qed.

Section OsNoError.

Context (pil_open : FS → Path → outcome Image).
Context (pil_save :
  FS → Image → Path → gmap string pvalue → outcome unit * FS).

(** Where no query fails, the conversion and the batch are
    [convert_one] and [worker]. *)
Lemma os_convert_one_no_error (fuel : nat) (w : World) (src dst_dir : Path)
    (ov : bool) (q s : Z) (l k : bool) (pre : option string) :
  Os.convert_one Os.no_error pil_open pil_save fuel w src dst_dir ov q s l k
    pre
  = (λ r, (Ok r.1, r.2))
      <$> convert_one pil_open pil_save fuel w src dst_dir ov q s l k pre.
Proof.
  unfold Os.convert_one, convert_one.
  destruct (pil_open (fs w) src) as [im|e]; [|done].
  rewrite os_resolve_out_no_error.
  destruct (resolve_out fuel (fs w) dst_dir ov pre src) as [out|]; [|done].
  simpl. by destruct (save_avif _ _ _ _ _ _ _ _) as [[u|e] w'].
Qed.

Lemma os_worker_loop_no_error (fuel : nat) (o : Options) (n : Z)
    (rest : list Path) (i errors : Z) (w : World) :
  Os.worker_loop Os.no_error pil_open pil_save fuel o n rest i errors w
  = (λ r, (Ok r.1, r.2))
      <$> worker_loop pil_open pil_save fuel o n rest i errors w.
Proof.
  revert i errors w. induction rest as [|item rest IH]; intros i errors w;
    [done|].
  simpl. rewrite os_convert_one_no_error.
  destruct (convert_one pil_open pil_save fuel w item _ _ _ _ _ _ _)
    as [[msg w1]|]; simpl; [apply IH|done].
Qed.

Lemma os_worker_no_error (fuel : nat) (o : Options) (items : list Path)
    (w : World) :
  Os.worker Os.no_error pil_open pil_save fuel o items w
  = (λ w', (Ok (), w')) <$> worker pil_open pil_save fuel o items w.
Proof.
  unfold Os.worker, worker. rewrite os_worker_loop_no_error.
  by destruct (worker_loop pil_open pil_save fuel o _ items 1 0 w)
    as [[errors w1]|].
Qed.

End OsNoError.

(** ** Runs that return, runs that stop *)

Section OsRuns.

Context (stat_error : FS → Path → option string).
Context (pil_open : FS → Path → outcome Image).
Context (pil_save :
  FS → Image → Path → gmap string pvalue → outcome unit * FS).

Abbreviation os_probe := (Os.probe stat_error).
Abbreviation os_resolve_out := (Os.resolve_out stat_error).
Abbreviation os_convert_one := (Os.convert_one stat_error pil_open pil_save).
Abbreviation os_worker_loop := (Os.worker_loop stat_error pil_open pil_save).
Abbreviation os_worker := (Os.worker stat_error pil_open pil_save).

(** A probe that gives a path, or that has not ended, has gone through
    queries that all answered: it is the probe of [probe]. *)
Lemma os_probe_Ok (fuel : nat) (fs : FS) (dst_dir : Path) (stm : string)
    (n : Z) (out : Path) :
  os_probe fuel fs dst_dir stm n = Some (Ok out) →
  probe fuel fs dst_dir stm n = Some out.
Proof.
  revert n. induction fuel as [|fuel IH]; intros n; simpl; [done|].
  unfold Os.exists_, exists_.
  destruct (stat_error fs (candidate dst_dir stm n)); [done|].
  destruct (bool_decide _); simpl; [apply IH|by intros [= ->]].
Qed.

Lemma os_probe_None (fuel : nat) (fs : FS) (dst_dir : Path) (stm : string)
    (n : Z) :
  os_probe fuel fs dst_dir stm n = None →
  probe fuel fs dst_dir stm n = None.
Proof.
  revert n. induction fuel as [|fuel IH]; intros n; simpl; [done|].
  unfold Os.exists_, exists_.
  destruct (stat_error fs (candidate dst_dir stm n)); [done|].
  destruct (bool_decide _); simpl; [apply IH|done].
Qed.

(** A probe that raises has found the candidates before taken, and the
    query on the next one is what raises. *)
Lemma os_probe_Raise (fuel : nat) (fs : FS) (dst_dir : Path) (stm : string)
    (n : Z) (e : string) :
  os_probe fuel fs dst_dir stm n = Some (Raise e) →
  ∃ k, n <= k
       ∧ stat_error fs (candidate dst_dir stm k) = Some e
       ∧ ∀ j, n <= j < k →
              stat_error fs (candidate dst_dir stm j) = None
              ∧ is_Some (fs !! candidate dst_dir stm j).
Proof.
  revert n. induction fuel as [|fuel IH]; intros n; simpl; [done|].
  unfold Os.exists_.
  destruct (stat_error fs (candidate dst_dir stm n)) as [e'|] eqn:Es.
  { intros [= ->]. exists n. split; [lia|]. split; [done|]. lia. }
  case_bool_decide as Ex; [|done].
  intros (k & Hk & He & Hbusy)%IH. exists k. split; [lia|].
  split; [done|]. intros j Hj.
  destruct (decide (j = n)) as [->|]; [done|]. apply Hbusy. lia.
Qed.

Lemma os_probe_mono (fuel fuel' : nat) (fs : FS) (dst_dir : Path)
    (stm : string) (n : Z) (r : outcome Path) :
  os_probe fuel fs dst_dir stm n = Some r → (fuel ≤ fuel')%nat →
  os_probe fuel' fs dst_dir stm n = Some r.
Proof.
  revert fuel' n. induction fuel as [|fuel IH]; intros fuel' n H Hle;
    [done|].
  destruct fuel' as [|fuel']; [lia|]. simpl in *.
  destruct (Os.exists_ stat_error fs (candidate dst_dir stm n))
    as [[|]|e]; [|done|done].
  apply IH; [done|lia].
Qed.

Lemma os_resolve_out_Ok (fuel : nat) (fs : FS) (dst_dir : Path) (ov : bool)
    (pre : option string) (src out : Path) :
  os_resolve_out fuel fs dst_dir ov pre src = Some (Ok out) →
  resolve_out fuel fs dst_dir ov pre src = Some out.
Proof.
  unfold Os.resolve_out, resolve_out, Os.exists_, exists_.
  destruct (stat_error fs _); [done|].
  destruct (bool_decide _ && negb ov); [apply os_probe_Ok|by intros [= ->]].
Qed.

(** The query that makes [resolve_out] raise: on the target, or on a
    candidate once the target and the candidates before are taken. *)
Lemma os_resolve_out_Raise (fuel : nat) (fs : FS) (dst_dir : Path)
    (ov : bool) (pre : option string) (src : Path) (e : string) :
  os_resolve_out fuel fs dst_dir ov pre src = Some (Raise e) →
  stat_error fs (joinpath dst_dir (target_name pre src)) = Some e
  ∨ (ov = false
     ∧ is_Some (fs !! joinpath dst_dir (target_name pre src))
     ∧ ∃ k, 2 <= k
            ∧ stat_error fs (candidate dst_dir (target_stem pre src) k)
              = Some e).
Proof.
  unfold Os.resolve_out, Os.exists_, target_name. intros H.
  destruct (stat_error fs (joinpath dst_dir (target_stem pre src +:+ ".avif")))
    as [e'|]; [left; congruence|].
  right. case_bool_decide as Ex; simpl in H; [|done].
  destruct ov; simpl in H; [done|].
  apply os_probe_Raise in H as (k & Hk & He & _). eauto.
Qed.

Lemma os_resolve_out_total (fuel : nat) (fs : FS) (dst_dir : Path)
    (ov : bool) (pre : option string) (src : Path) :
  (size fs < fuel)%nat →
  is_Some (os_resolve_out fuel fs dst_dir ov pre src).
Proof.
  intros Hfuel. unfold Os.resolve_out.
  destruct (Os.exists_ stat_error fs _) as [b|e]; [|by eexists].
  destruct (b && negb ov); [|by eexists].
  destruct (os_probe fuel fs dst_dir (target_stem pre src) 2) eqn:E;
    [by eexists|].
  apply os_probe_None in E.
  destruct (probe_total fuel fs dst_dir (target_stem pre src) 2)
    as [p Hp]; [lia|done|congruence].
Qed.

Lemma os_resolve_out_mono (fuel fuel' : nat) (fs : FS) (dst_dir : Path)
    (ov : bool) (pre : option string) (src : Path) (r : outcome Path) :
  os_resolve_out fuel fs dst_dir ov pre src = Some r → (fuel ≤ fuel')%nat →
  os_resolve_out fuel' fs dst_dir ov pre src = Some r.
Proof.
  unfold Os.resolve_out. intros H Hle.
  destruct (Os.exists_ stat_error fs _) as [b|e]; [|done].
  destruct (b && negb ov); [|done]. by eapply os_probe_mono.
Qed.

(** A conversion that returns is a conversion of [convert_one]. *)
Lemma os_convert_one_Ok (fuel : nat) (w : World) (src dst_dir : Path)
    (ov : bool) (q s : Z) (l k : bool) (pre : option string)
    (msg : option string) (w' : World) :
  os_convert_one fuel w src dst_dir ov q s l k pre = Some (Ok msg, w') →
  convert_one pil_open pil_save fuel w src dst_dir ov q s l k pre
  = Some (msg, w').
Proof.
  unfold Os.convert_one, convert_one.
  destruct (pil_open (fs w) src) as [im|e]; [|by intros [= -> ->]].
  destruct (os_resolve_out fuel (fs w) dst_dir ov pre src)
    as [[out|e]|] eqn:E; [|done|done].
  rewrite (os_resolve_out_Ok _ _ _ _ _ _ _ E).
  destruct (save_avif _ _ _ _ _ _ _ _) as [[u|e] w'']; by intros [= -> ->].
Qed.

(** What leaves [convert_one] is the error of a query, on the target or
    on a candidate; the decoder had given an image, and the encoder has
    not been called. *)
Lemma os_convert_one_Raise (fuel : nat) (w : World) (src dst_dir : Path)
    (ov : bool) (q s : Z) (l k : bool) (pre : option string)
    (e : string) (w' : World) :
  os_convert_one fuel w src dst_dir ov q s l k pre = Some (Raise e, w') →
  w' = w
  ∧ (∃ im, pil_open (fs w) src = Ok im)
  ∧ ∃ p, stat_error (fs w) p = Some e
         ∧ (p = joinpath dst_dir (target_name pre src)
            ∨ ∃ n, 2 <= n ∧ p = candidate dst_dir (target_stem pre src) n).
Proof.
  unfold Os.convert_one.
  destruct (pil_open (fs w) src) as [im|e']; [|done].
  destruct (os_resolve_out fuel (fs w) dst_dir ov pre src)
    as [[out|e']|] eqn:E; [| |done].
  { by destruct (save_avif _ _ _ _ _ _ _ _) as [[u|e'] w'']. }
  intros [= -> ->]. split; [done|]. split; [by eexists|].
  apply os_resolve_out_Raise in E as [H|(_ & _ & n & Hn & H)].
  - eexists. split; [exact H|]. by left.
  - eexists. split; [exact H|]. right. eauto.
Qed.

Lemma os_convert_one_total (fuel : nat) (w : World) (src dst_dir : Path)
    (ov : bool) (q s : Z) (l k : bool) (pre : option string) :
  (size (fs w) < fuel)%nat →
  is_Some (os_convert_one fuel w src dst_dir ov q s l k pre).
Proof.
  intros Hfuel. unfold Os.convert_one.
  destruct (pil_open (fs w) src) as [im|e]; [|by eexists].
  destruct (os_resolve_out_total fuel (fs w) dst_dir ov pre src Hfuel)
    as [[out|e] ->]; [|by eexists].
  destruct (save_avif _ _ _ _ _ _ _ _) as [[u|e] w'']; by eexists.
Qed.

Lemma os_convert_one_mono (fuel fuel' : nat) (w : World)
    (src dst_dir : Path) (ov : bool) (q s : Z) (l k : bool)
    (pre : option string) (r : outcome (option string) * World) :
  os_convert_one fuel w src dst_dir ov q s l k pre = Some r →
  (fuel ≤ fuel')%nat →
  os_convert_one fuel' w src dst_dir ov q s l k pre = Some r.
Proof.
  intros H Hle. unfold Os.convert_one in *.
  destruct (pil_open (fs w) src) as [im|e]; [|done].
  destruct (os_resolve_out fuel _ _ _ _ _) as [r'|] eqn:E; [|done].
  by rewrite (os_resolve_out_mono _ _ _ _ _ _ _ _ E Hle).
Qed.

(** The loop and [worker] end on every list of items, given fuel
    enough: with a count of errors, or with the error that left a
    conversion. *)
Lemma os_worker_loop_total (o : Options) (n : Z) (rest : list Path)
    (i errors : Z) (w : World) :
  ∃ fuel0, ∀ fuel, (fuel0 ≤ fuel)%nat →
    is_Some (os_worker_loop fuel o n rest i errors w).
Proof.
  revert i errors w. induction rest as [|item rest IH]; intros i errors w.
  { exists O. intros fuel _. by eexists. }
  set (fuel1 := S (size (fs w))).
  destruct (os_convert_one_total fuel1 w item (dst o) (overwrite o)
    (quality o) (speed o) (lossless o) (keep_exif o) (prefix o))
    as [[[msg|e] w1] H1]; [unfold fuel1; lia| |].
  - destruct (IH (i + 1) (if truthy msg then errors + 1 else errors)
      (emit (EvStatus (pretty i +:+ "/" +:+ pretty n))
         (emit (EvProgress i) (emit (EvReturn item msg) w1))))
      as [fuel2 H2].
    exists (fuel1 `max` fuel2)%nat. intros fuel Hfuel. simpl.
    rewrite (os_convert_one_mono fuel1 fuel _ _ _ _ _ _ _ _ _ _ H1) by lia.
    apply H2. lia.
  - exists fuel1. intros fuel Hfuel. simpl.
    rewrite (os_convert_one_mono fuel1 fuel _ _ _ _ _ _ _ _ _ _ H1) by lia.
    by eexists.
Qed.

Lemma os_worker_total (o : Options) (items : list Path) (w : World) :
  ∃ fuel0, ∀ fuel, (fuel0 ≤ fuel)%nat →
    is_Some (os_worker fuel o items w).
Proof.
  destruct (os_worker_loop_total o (Z.of_nat (List.length items)) items 1 0
    w) as [fuel0 H].
  exists fuel0. intros fuel Hfuel. unfold Os.worker.
  destruct (H fuel Hfuel) as [[[errors|e] w1] ->]; by eexists.
Qed.

(** A run that returns is a run of [worker]: what is proved of the runs
    of [worker] holds of it. *)
Lemma os_worker_loop_Ok (fuel : nat) (o : Options) (n : Z)
    (rest : list Path) (i errors : Z) (w : World) (errors' : Z)
    (w' : World) :
  os_worker_loop fuel o n rest i errors w = Some (Ok errors', w') →
  worker_loop pil_open pil_save fuel o n rest i errors w
  = Some (errors', w').
Proof.
  revert i errors w. induction rest as [|item rest IH]; intros i errors w;
    simpl.
  { by intros [= -> ->]. }
  destruct (os_convert_one fuel w item _ _ _ _ _ _ _)
    as [[[msg|e] w1]|] eqn:E; [|done|done].
  rewrite (os_convert_one_Ok _ _ _ _ _ _ _ _ _ _ _ _ E). apply IH.
Qed.

Lemma os_worker_Ok (fuel : nat) (o : Options) (items : list Path)
    (w w' : World) :
  os_worker fuel o items w = Some (Ok (), w') →
  worker pil_open pil_save fuel o items w = Some w'.
Proof.
  unfold Os.worker, worker.
  destruct (os_worker_loop fuel o _ items 1 0 w)
    as [[[errors|e] w1]|] eqn:E; [|done|done].
  rewrite (os_worker_loop_Ok _ _ _ _ _ _ _ _ _ E). by intros [= ->].
Qed.

(** A run that stops has given a result for the items before the one
    whose conversion the error left, and for no other; the error is
    that of a query. *)
Lemma os_worker_loop_Raise (fuel : nat) (o : Options) (n : Z)
    (rest : list Path) (i errors : Z) (w : World) (e : string)
    (w' : World) :
  os_worker_loop fuel o n rest i errors w = Some (Raise e, w') →
  ∃ before item after steps,
    rest = before ++ item :: after
    ∧ (steps.*2).*1 = before
    ∧ log w' = log w ++ trace n i steps
    ∧ ∃ p, stat_error (fs w') p = Some e.
Proof.
  revert i errors w. induction rest as [|item rest IH]; intros i errors w;
    simpl; [done|].
  destruct (os_convert_one fuel w item _ _ _ _ _ _ _)
    as [[[msg|e'] w1]|] eqn:E; [| |done].
  - intros (before & it & after & steps & -> & Hst & Hlog & Hp)%IH.
    apply os_convert_one_Ok, convert_one_step in E
      as [(e'' & _ & -> & ->)|(im & out & _ & _ & Henc)].
    + exists (item :: before), it, after,
        (([], (item, Some ("Skip " +:+ name item +:+ ": " +:+ e'')))
         :: steps).
      split; [done|]. split; [by rewrite !fmap_cons, Hst|].
      split; [|done]. rewrite Hlog. simpl. by rewrite <-!app_assoc.
    + unfold encoded in Henc. injection Henc as -> ->.
      eexists (item :: before), it, after,
        (([EvSave (prepare_mode im) out _], (item, _)) :: steps).
      split; [done|]. split; [by rewrite !fmap_cons, Hst|].
      split; [|done]. rewrite Hlog. simpl. by rewrite <-!app_assoc.
  - intros [= -> ->].
    apply os_convert_one_Raise in E as (-> & _ & p & Hp & _).
    exists [], item, rest, []. split; [done|]. split; [done|].
    split; [by rewrite app_nil_r|]. by exists p.
Qed.

End OsRuns.

(** The items of the run below are what discovery finds. *)
Example long_names_items :
  Os.collect_images LongNames.stat_error glob rglob LongNames.files
    Sample.pics false = Ok LongNames.items.
Proof. by vm_compute. Qed.

(** C1. A run of [worker] does not always give a result for each item:
    the error of a query made between the two [try] blocks of
    [convert_one] leaves the loop. On three pictures, the second with a
    stem of 250 letters whose output is already in the destination
    folder, the candidate [stem_2.avif] has a name of 257 bytes and
    [cand.exists()] raises: the run stops there, with a result for the
    first picture only and no closing status line. *)
Theorem worker_stops_on_long_name :
  List.length LongNames.items = 3%nat
  ∧ (λ r, (r.1, returns (log r.2), last (statuses (log r.2))))
      <$> Os.worker LongNames.stat_error Sample.decoder Sample.encoder 5
            Sample.options LongNames.items LongNames.start
    = Some (Raise "[Errno 36] File name too long",
            [(["/"; "pics"; "a.png"], None)],
            Some "1/3").
Proof. split; by vm_compute. Qed.

(** C2. With [overwrite] off and the target taken, the conversion does
    not always choose the first free candidate: for a source with a stem
    of 250 letters the target [stem.avif] is there, the candidate
    [stem_2.avif] is not, and the query on that candidate raises, so that
    [convert_one] ends with that error and the encoder is not called. *)
Theorem convert_one_stops_on_long_name :
  let src := Sample.pics ++ [LongNames.long_stem +:+ ".png"] in
  let target := joinpath Sample.out_dir (target_name None src) in
  let second := candidate Sample.out_dir (target_stem None src) 2 in
  LongNames.files !! target = Some KFile
  ∧ LongNames.files !! second = None
  ∧ Os.resolve_out LongNames.stat_error 5 LongNames.files Sample.out_dir
      false None src
    = Some (Raise "[Errno 36] File name too long")
  ∧ (λ r, (r.1, log r.2))
      <$> Os.convert_one LongNames.stat_error Sample.decoder Sample.encoder
            5 LongNames.start src Sample.out_dir false 80 6 false true None
    = Some (Raise "[Errno 36] File name too long", []).
Proof. repeat split; by vm_compute. Qed.

(** C9. Over [n] items [worker] does not always schedule [n] updates of
    the progress bar: in the run on the three pictures above, which the
    error of [cand.exists()] ends at the second, there is one update,
    with the value [1], and one status text, [1/3]. *)
Theorem worker_progress_cut_short :
  List.length LongNames.items = 3%nat
  ∧ (λ r, (r.1, progresses (log r.2), statuses (log r.2)))
      <$> Os.worker LongNames.stat_error Sample.decoder Sample.encoder 5
            Sample.options LongNames.items LongNames.start
    = Some (Raise "[Errno 36] File name too long", [1], ["1/3"]).
Proof. split; by vm_compute. Qed.

(** ** Colour mode and alpha *)

(** An image in mode [PA], a palette with alpha, comes out in [RGB]. *)
Lemma prepare_mode_drops_alpha :
  ¬ ∀ im, has_alpha im = true → mode (prepare_mode im) = "RGBA".
Proof.
  intros H.
  specialize (H {| mode := "PA"; info := ∅; pixels := "" |}).
  assert (has_alpha {| mode := "PA"; info := ∅; pixels := "" |} = true)
    as Ha by (by vm_compute).
  apply H in Ha. by vm_compute in Ha.
Qed.

(** C5. [prepare_mode] goes by the name of the mode: an image in mode
    [RGBA] or [LA] is converted to [RGBA] and every other image to [RGB],
    so an image without alpha goes to [RGB], and so do the images in
    modes [PA], [RGBa] and [La], which have alpha; what it gives is
    always in one of the two modes, and has alpha exactly when the mode
    was [RGBA] or [LA]. *)
Theorem prepare_mode_by_mode (im : Image) :
  (mode im = "RGBA" ∨ mode im = "LA" → prepare_mode im = convert im "RGBA")
  ∧ (mode im ≠ "RGBA" → mode im ≠ "LA" → prepare_mode im = convert im "RGB")
  ∧ (has_alpha im = false → mode (prepare_mode im) = "RGB")
  ∧ (mode im = "PA" ∨ mode im = "RGBa" ∨ mode im = "La" →
     has_alpha im = true ∧ mode (prepare_mode im) = "RGB")
  ∧ (mode (prepare_mode im) = "RGBA" ∨ mode (prepare_mode im) = "RGB")
  ∧ has_alpha (prepare_mode im)
    = bool_decide (mode im = "RGBA" ∨ mode im = "LA").
Proof.
  destruct (prepare_mode_modes im) as (Hp & Hm & Hrgb).
  assert (∀ m, m ∈ alpha_modes ↔
    m = "RGBA" ∨ m = "LA" ∨ m = "PA" ∨ m = "RGBa" ∨ m = "La") as Halpha.
  { intros m. unfold alpha_modes. rewrite !elem_of_cons, elem_of_nil.
    tauto. }
  split; [|split; [|split; [|split; [|split]]]].
  - intros H. rewrite Hp. by rewrite bool_decide_eq_true_2.
  - intros H1 H2. rewrite Hp. rewrite bool_decide_eq_false_2; [done|].
    by intros [?|?].
  - intros Ha. rewrite Hm. rewrite bool_decide_eq_false_2; [done|].
    apply bool_decide_eq_false in Ha. rewrite Halpha in Ha. tauto.
  - intros H. split.
    + apply bool_decide_eq_true. rewrite Halpha. tauto.
    + rewrite Hm. rewrite bool_decide_eq_false_2; [done|].
      intros [E|E]; rewrite E in H; by destruct H as [H|[H|H]].
  - done.
  - unfold has_alpha. rewrite Hm.
    destruct (bool_decide (mode im = "RGBA" ∨ mode im = "LA"));
      by vm_compute.
Qed.

Lemma prepare_mode_by_mode_witness :
  prepare_mode {| mode := "LA"; info := ∅; pixels := "" |}
  = {| mode := "RGBA"; info := ∅; pixels := "" |}
  ∧ mode (prepare_mode {| mode := "CMYK"; info := ∅; pixels := "" |}) = "RGB"
  ∧ mode (prepare_mode {| mode := "RGBa"; info := ∅; pixels := "" |}) = "RGB".
Proof.
  split; [|split].
  - apply (proj1 (prepare_mode_by_mode
      {| mode := "LA"; info := ∅; pixels := "" |})). by right.
  - apply (proj1 (proj2 (proj2 (prepare_mode_by_mode
      {| mode := "CMYK"; info := ∅; pixels := "" |})))). by vm_compute.
  - apply (proj1 (proj2 (proj2 (proj2 (prepare_mode_by_mode
      {| mode := "RGBa"; info := ∅; pixels := "" |}))))). right. by left.
Defined.

(** ** The window *)

Section OsWindow.

Context (stat_error : FS → Path → option string).
Context (glob rglob : FS → Path → list Path).
Context (expanduser : Path → outcome Path).
Context (mkdir : FS → Path → outcome unit * FS).

Abbreviation os_start_conversion :=
  (Os.start_conversion stat_error glob rglob expanduser mkdir).

(** X16. [start_conversion] shows an error in one case only: the two
    fields have been read and expanded, and the query on the source
    answers that it does not exist. It is then the error on the source,
    and nothing else is done: no folder is made and no worker started.
    The test of the destination never fires, a path being always true.
    When the query on the source raises, no dialog is shown: the error
    leaves [start_conversion]. *)
Theorem start_conversion_error (v : Vars) (fs : FS) :
  ((∃ title text, ShowError title text ∈ (os_start_conversion v fs).1.2)
   ↔ ∃ src dst,
       expanduser (parse_path (Str.strip (src_var v))) = Ok src
       ∧ expanduser (parse_path (Str.strip (dst_var v))) = Ok dst
       ∧ stat_error fs src = None
       ∧ fs !! src = None)
  ∧ ((∃ title text, ShowError title text ∈ (os_start_conversion v fs).1.2)
     → os_start_conversion v fs
       = (fs, [ShowError "Error" "Pick a valid source file or folder"],
          Returned))
  ∧ (∀ src dst e,
       expanduser (parse_path (Str.strip (src_var v))) = Ok src →
       expanduser (parse_path (Str.strip (dst_var v))) = Ok dst →
       stat_error fs src = Some e →
       os_start_conversion v fs = (fs, [], Crashed e)).
Proof.
  assert ((∃ title text,
             ShowError title text ∈ (os_start_conversion v fs).1.2)
          → (∃ src dst,
               expanduser (parse_path (Str.strip (src_var v))) = Ok src
               ∧ expanduser (parse_path (Str.strip (dst_var v))) = Ok dst
               ∧ stat_error fs src = None
               ∧ fs !! src = None)
            ∧ os_start_conversion v fs
              = (fs, [ShowError "Error" "Pick a valid source file or folder"],
                 Returned)) as Hshown.
  { unfold Os.start_conversion, Os.exists_. intros (title & text & Hin).
    destruct (expanduser (parse_path (Str.strip (src_var v))))
      as [src|e]; [|by apply elem_of_nil in Hin].
    destruct (expanduser (parse_path (Str.strip (dst_var v))))
      as [dst|e]; [|by apply elem_of_nil in Hin].
    destruct (stat_error fs src) as [e|] eqn:Es;
      [by apply elem_of_nil in Hin|].
    case_bool_decide as E; simpl in *.
    - destruct (mkdir fs dst) as [[u|e] fs1];
        [|by apply elem_of_nil in Hin].
      destruct (quality_var v) as [q|e]; [|by apply elem_of_nil in Hin].
      destruct (speed_var v) as [s|e]; [|by apply elem_of_nil in Hin].
      destruct (Os.collect_images stat_error glob rglob fs1 src
                  (recursive_var v)) as [[|p ps]|e]; simpl in Hin;
        repeat (apply elem_of_cons in Hin as [Hin|Hin]; [done|]);
        by apply elem_of_nil in Hin.
    - split; [|done]. exists src, dst. do 3 (split; [done|]).
      by apply eq_None_not_Some. }
  split; [split|split].
  - intros H. by apply Hshown.
  - intros (src & dst & Hs & Hd & He & Hn).
    unfold Os.start_conversion, Os.exists_. rewrite Hs, Hd, He.
    rewrite bool_decide_eq_false_2 by (rewrite Hn; by intros [??]).
    simpl. eexists _, _. by left.
  - intros H. by apply Hshown.
  - intros src dst e Hs Hd He.
    unfold Os.start_conversion, Os.exists_. by rewrite Hs, Hd, He.
Qed.

End OsWindow.

Lemma start_conversion_error_witness :
  (Os.start_conversion LongNames.stat_error glob rglob
     SampleWindow.expanduser SampleWindow.mkdir
     (set_src_var "/nowhere" SampleWindow.vars) Sample.files).1.2
  = [ShowError "Error" "Pick a valid source file or folder"]
  ∧ (Os.start_conversion LongNames.stat_error glob rglob
       SampleWindow.expanduser SampleWindow.mkdir
       (set_src_var (path_str ["/"; LongNames.ms 300]) SampleWindow.vars)
       Sample.files).2
    = Crashed "[Errno 36] File name too long".
Proof.
  destruct (start_conversion_error LongNames.stat_error glob rglob
    SampleWindow.expanduser SampleWindow.mkdir
    (set_src_var "/nowhere" SampleWindow.vars) Sample.files)
    as ([_ H1] & H2 & _).
  destruct (start_conversion_error LongNames.stat_error glob rglob
    SampleWindow.expanduser SampleWindow.mkdir
    (set_src_var (path_str ["/"; LongNames.ms 300]) SampleWindow.vars)
    Sample.files) as (_ & _ & H3).
  split.
  - rewrite H2; [done|]. apply H1. exists ["/"; "nowhere"], ["/"; "out"].
    repeat split; by vm_compute.
  - rewrite (H3 ["/"; LongNames.ms 300] ["/"; "out"]
               "[Errno 36] File name too long"); [done| | |];
      by vm_compute.
Defined.
